(** * VectorDatabase (Chapter 5, Lecture 5): a shallow embedding

    The class [VectorDatabase] of [Chapter_5/Lecture_5.ipynb] keeps three
    parallel sequences: the vectors of a flat L2 index, the document texts
    and one metadata dict per document.  Its methods are embedded here as
    computations in a state-and-exception monad, so that what a method has
    already written when it raises stays written, exactly as in Python.

    Conventions of the model.
    - A float32 component is an integer and distances are computed
      exactly: rounding, overflow to infinity and NaN have no counterpart.
      The examples use small integers, which float32 holds exactly.
    - A string is a sequence of code points below 256.
    - A directory is named by one string, and a write to the disk goes
      through: a path the operating system refuses, and two spellings of
      one directory, have no counterpart.
    - A Python dict is an object on a heap and is named by its address;
      the metadata list of the database holds addresses, so two entries
      may be the same dict.
    - [print] and [time.time] have no counterpart.
    - The pretrained model is a function from a batch of texts to an array,
      or to nothing when it raises. *)

From stdpp Require Import base numbers list strings gmap sorting.

Local Open Scope Z_scope.
Local Open Scope nat_scope.

(** ** Values, dicts and the heap *)

(** The values a metadata dict holds ([Dict[str, Any]] in the source,
    scalars and strings in practice). *)
Inductive value :=
  | VInt (z : Z)
  | VStr (s : string)
  | VBool (b : bool).

Abbreviation dict := (gmap string value).

(** Address of a dict object. *)
Abbreviation loc := nat.

(** The dict objects allocated so far; a new one goes at the end. *)
Abbreviation heap_t := (list dict).

Definition deref (h : heap_t) (l : loc) : dict := default ∅ (h !! l).

(** ** Exceptions

    The names are those of the specification; the Python exception that
    carries each one is given at the place that raises it.  [TypeError] is
    Python's own. *)
Inductive exn :=
  | LengthMismatch
  | DimensionMismatch
  | EmbeddingError
  | EmptyIndex
  | NotFound
  | CorruptState
  | TypeError.

Inductive result (A : Type) :=
  | Ok (a : A)
  | Raise (e : exn).
Arguments Ok {A} a.
Arguments Raise {A} e.

(** ** Arrays *)

(** A two-dimensional numpy array: [shape1] is [shape[1]], [rows] are its
    [shape[0]] rows. *)
Record ndarray := mk_ndarray { shape1 : nat; rows : list (list Z) }.

(** ** The vector index *)

Module Index.

(** Modelled from the spec: the index is [faiss.IndexFlatL2], a
    third-party library whose code is not part of the repository.
    Section 4.1 of the specification gives its contract: [create], [add]
    (all or nothing, refusing a width other than the index's) and
    [search] (exact scan, squared Euclidean distance, the [k] nearest in
    ascending distance, equal distances by lower position, [k] clamped to
    the stored count, failure on an empty index).  The width check on
    queries is the one faiss makes on every array it is handed.  The
    distances are exact here, where the library computes in float32. *)
Record t := mk { d : nat; xb : list (list Z) }.

Definition create (dimension : nat) : t := mk dimension [].

Definition ntotal (ix : t) : nat := length (xb ix).

Definition add (ix : t) (vectors : ndarray) : result t :=
  if decide (shape1 vectors = d ix)
  then Ok (mk (d ix) (xb ix ++ rows vectors))
  else Raise DimensionMismatch.

(** Squared Euclidean distance. *)
Fixpoint l2sqr (x y : list Z) : Z :=
  match x, y with
  | a :: x', b :: y' => ((a - b) * (a - b) + l2sqr x' y')%Z
  | _, _ => 0%Z
  end.

(** A hit is a position with its distance.  [nearer p q]: [p] is ranked
    no later than [q]. *)
Definition nearer (p q : nat * Z) : Prop :=
  (p.2 < q.2)%Z ∨ (p.2 = q.2 ∧ p.1 ≤ q.1).

#[global] Instance nearer_dec : RelDecision nearer.
Proof. intros p q. unfold nearer. apply _. Defined.

Definition scan (ix : t) (query : list Z) : list (nat * Z) :=
  imap (λ i v, (i, l2sqr query v)) (xb ix).

Definition knn (ix : t) (k : nat) (query : list Z) : list (nat * Z) :=
  take k (merge_sort nearer (scan ix query)).

(** One list of hits per query row. *)
Definition search (ix : t) (x : ndarray) (k : nat)
  : result (list (list (nat * Z))) :=
  if decide (shape1 x = d ix) then
    match xb ix with
    | [] => Raise EmptyIndex
    | _ :: _ => Ok (knn ix k <$> rows x)
    end
  else Raise DimensionMismatch.

End Index.

(** ** The database object and the world around it *)

(** [self.tokenizer] and [self.model] together: [generate_embeddings] is
    all that uses them. *)
Definition embedder := list string → option ndarray.

Record VectorDatabase := mkDB {
  model_name : string;
  model : embedder;
  index : option Index.t;
  documents : list string;
  metadata : list loc
}.

(** The four files [save] writes.  A file is absent, present with content
    its reader accepts, or present with bytes its reader rejects. *)
Inductive artifact (A : Type) :=
  | Valid (a : A)
  | Unreadable.
Arguments Valid {A} a.
Arguments Unreadable {A}.

(** A pickled metadata list: each entry is a dict written out in full the
    first time the object is met, and a reference to the earlier one (by
    its order of appearance) every time after. *)
Inductive pickled_dict :=
  | PDict (content : dict)
  | PMemo (j : nat).

Record folder := mkDir {
  index_faiss : option (artifact Index.t);
  documents_pkl : option (artifact (list string));
  metadata_pkl : option (artifact (list pickled_dict));
  model_name_txt : option (artifact string)
}.

Definition empty_folder : folder := mkDir None None None None.

Record state := mkState {
  self : VectorDatabase;
  heap : heap_t;
  disk : gmap string folder;
  (** every batch [generate_embeddings] was called on, oldest first *)
  embed_calls : list (list string)
}.

(** ** The monad: state that survives an exception *)

Definition M (A : Type) : Type := state → result A * state.

#[global] Instance M_ret : MRet M := λ A a s, (Ok a, s).
#[global] Instance M_bind : MBind M := λ A B f m s,
  match m s with
  | (Ok a, s') => f a s'
  | (Raise e, s') => (Raise e, s')
  end.

Definition raise {A} (e : exn) : M A := λ s, (Raise e, s).
Definition gets {A} (f : state → A) : M A := λ s, (Ok (f s), s).
Definition modify (f : state → state) : M () := λ s, (Ok (), f s).

Definition with_self (f : VectorDatabase → VectorDatabase) (s : state) : state :=
  mkState (f (self s)) (heap s) (disk s) (embed_calls s).
Definition with_heap (f : heap_t → heap_t) (s : state) : state :=
  mkState (self s) (f (heap s)) (disk s) (embed_calls s).
Definition with_disk (f : gmap string folder → gmap string folder)
    (s : state) : state :=
  mkState (self s) (heap s) (f (disk s)) (embed_calls s).
Definition with_embed_calls (f : list (list string) → list (list string))
    (s : state) : state :=
  mkState (self s) (heap s) (disk s) (f (embed_calls s)).

Definition set_index (ix : option Index.t) (db : VectorDatabase) : VectorDatabase :=
  mkDB (model_name db) (model db) ix (documents db) (metadata db).
Definition set_documents (l : list string) (db : VectorDatabase) : VectorDatabase :=
  mkDB (model_name db) (model db) (index db) l (metadata db).
Definition set_metadata (l : list loc) (db : VectorDatabase) : VectorDatabase :=
  mkDB (model_name db) (model db) (index db) (documents db) l.
Definition set_model (E : embedder) (db : VectorDatabase) : VectorDatabase :=
  mkDB (model_name db) E (index db) (documents db) (metadata db).

(** ** Methods of [VectorDatabase] *)

(** [generate_embeddings]: the call is recorded, then the model answers or
    raises. *)
Definition generate_embeddings (texts : list string) : M ndarray := λ s,
  let s' := with_embed_calls (λ c, c ++ [texts]) s in
  match model (self s) texts with
  | Some embeddings => (Ok embeddings, s')
  | None => (Raise EmbeddingError, s')
  end.

(** [self.index.add(embeddings)]. *)
Definition index_add (embeddings : ndarray) : M () :=
  ix ← gets (index ∘ self);
  match ix with
  | None => raise NotFound (* not reached: the caller has made the index *)
  | Some ix =>
      match Index.add ix embeddings with
      | Ok ix' => modify (with_self (set_index (Some ix')))
      | Raise e => raise e
      end
  end.

(** [[{} for _ in documents]]: one new empty dict per document. *)
Definition fresh_dicts (n : nat) : M (list loc) := λ s,
  (Ok (seq (length (heap s)) n), with_heap (λ h, h ++ replicate n ∅) s).

(** [meta[key] = v]. *)
Definition dict_setitem (meta : loc) (key : string) (v : value) : M () :=
  modify (with_heap (alter (<[key := v]>) meta)).

(** [for i, meta in enumerate(metadata): meta['document_idx'] = start_idx + i],
    with [i] the position reached so far. *)
Fixpoint stamp (start_idx i : nat) (metadata : list loc) : M () :=
  match metadata with
  | [] => mret ()
  | meta :: rest =>
      dict_setitem meta "document_idx" (VInt (Z.of_nat (start_idx + i)));;
      stamp start_idx (S i) rest
  end.

(** [add_documents(documents, metadata=None)] called on lists of the
    caller's own: [docs] are the texts, [metas] the dicts the caller
    passes, by address, if any.  The lists are not the ones the database
    keeps, so what the method appends to [self.documents] and
    [self.metadata] does not change them, and reading [documents] again
    after [self.documents.extend(documents)] gives [docs] again.  The call
    that hands the database one of its own lists is [add_documents_passed]
    below. *)
Definition add_documents (docs : list string) (metas : option (list loc)) : M () :=
  match docs with
  | [] => mret ()
  | _ :: _ =>
      embeddings ← generate_embeddings docs;
      ix ← gets (index ∘ self);
      (match ix with
       | None =>
           let dimension := shape1 embeddings in
           modify (with_self (set_index (Some (Index.create dimension))))
       | Some _ => mret ()
       end);;
      index_add embeddings;;
      start_idx ← gets (length ∘ documents ∘ self);
      modify (with_self (λ db, set_documents (documents db ++ docs) db));;
      metas ← (match metas with
               | None => fresh_dicts (length docs)
               | Some metas => mret metas
               end);
      (* assert len(metadata) == len(documents),
         "Metadata list must match documents list length" *)
      (if decide (length metas = length docs) then mret ()
       else raise LengthMismatch);;
      stamp start_idx 0 metas;;
      modify (with_self (λ db, set_metadata (metadata db ++ metas) db))
  end.

(** A list handed to a method is an object: it is a list of the caller's
    own, or the very list the database keeps ([db.documents] as
    [documents], [db.metadata] as [metadata]).  In the second case the
    method sees what it has itself appended to it. *)
Inductive passed (A : Type) :=
  | Caller (l : list A)
  | Own.
Arguments Caller {A} l.
Arguments Own {A}.

(** The elements of a passed list, as they are now. *)
Definition passed_list {A} (own : list A) (p : passed A) : list A :=
  match p with
  | Caller l => l
  | Own => own
  end.

(** What is handed as [metadata]: a list of dicts, or the list
    [db.documents], which holds no dict but may be empty when the call is
    made. *)
Inductive given_metadata :=
  | Dicts (metas : passed loc)
  | Texts.

Definition read_documents (batch : passed string) : M (list string) :=
  gets (λ s, passed_list (documents (self s)) batch).

Definition read_metadata (metas : passed loc) : M (list loc) :=
  gets (λ s, passed_list (metadata (self s)) metas).

(** [add_documents(documents, metadata=None)] on passed lists.  The
    source reads [documents] three times: for the embeddings, for
    [self.documents.extend(documents)], and, after that, for the dicts it
    makes and for the assertion.  [list.extend] of a list with itself
    appends the elements it had.  With [db.documents] as [metadata], the
    assertion compares the document list, the batch included, with the
    batch, and the first [meta['document_idx'] = ...] is an item
    assignment on a string. *)
Definition add_documents_passed (batch : passed string)
    (given : option given_metadata) : M () :=
  docs ← read_documents batch;
  match docs with
  | [] => mret ()
  | _ :: _ =>
      embeddings ← generate_embeddings docs;
      ix ← gets (index ∘ self);
      (match ix with
       | None =>
           let dimension := shape1 embeddings in
           modify (with_self (set_index (Some (Index.create dimension))))
       | Some _ => mret ()
       end);;
      index_add embeddings;;
      start_idx ← gets (length ∘ documents ∘ self);
      modify (with_self (λ db, set_documents (documents db ++ docs) db));;
      docs ← read_documents batch;
      match given with
      | Some Texts =>
          texts ← gets (documents ∘ self);
          (if decide (length texts = length docs) then mret ()
           else raise LengthMismatch);;
          match texts with
          | [] => mret ()
          | _ :: _ => raise TypeError
          end
      | Some (Dicts _) | None =>
          metas ← (match given with
                   | Some (Dicts metas) => read_metadata metas
                   | _ => fresh_dicts (length docs)
                   end);
          (* assert len(metadata) == len(documents),
             "Metadata list must match documents list length" *)
          (if decide (length metas = length docs) then mret ()
           else raise LengthMismatch);;
          stamp start_idx 0 metas;;
          modify (with_self (λ db, set_metadata (metadata db ++ metas) db))
      end
  end.

(** The metadata argument of [add_documents] for a passed list of dicts,
    at a call made in state [s]. *)
Definition given_metas (s : state) (given : option (passed loc))
  : option (list loc) :=
  passed_list (metadata (self s)) <$> given.

(** How long the list handed as [metadata] is when the call is made. *)
Definition given_length (s : state) (given : given_metadata) : nat :=
  match given with
  | Dicts metas => length (passed_list (metadata (self s)) metas)
  | Texts => length (documents (self s))
  end.

(** A search result; [r_metadata] is the content of the dict at the time
    of the search. *)
Record search_result := mkResult {
  r_rank : nat;
  r_document_idx : nat;
  r_distance : Z;
  r_text : string;
  r_metadata : dict
}.

(** The loop that formats the hits, [i] being the position reached. *)
Fixpoint format_results (i : nat) (hits : list (nat * Z)) : M (list search_result) :=
  match hits with
  | [] => mret []
  | (idx, distance) :: rest =>
      docs ← gets (documents ∘ self);
      metas ← gets (metadata ∘ self);
      h ← gets heap;
      match docs !! idx, metas !! idx with
      | Some text, Some meta =>
          results ← format_results (S i) rest;
          mret (mkResult (i + 1) idx distance text (deref h meta) :: results)
      | _, _ => raise NotFound (* IndexError *)
      end
  end.

(** [search(query, k)], for a count [k] that is not negative. *)
Definition search (query : string) (k : nat) : M (list search_result) :=
  ix ← gets (index ∘ self);
  docs ← gets (documents ∘ self);
  match ix, docs with
  | None, _ | _, [] => mret []
  | Some ix, _ :: _ =>
      query_embedding ← generate_embeddings [query];
      let k := k `min` length docs in
      match Index.search ix query_embedding k with
      | Raise e => raise e
      | Ok hits =>
          match hits with
          | [] => raise NotFound (* indices[0] on an array with no row *)
          | hits0 :: _ => format_results 0 hits0
          end
      end
  end.

(** The number of documents, [len(self.documents)]: what [add_documents]
    prints as the total and what [search] clamps [k] to. *)
Definition total_count (db : VectorDatabase) : nat := length (documents db).

(** ** Persistence *)

(** [pickle.dump(self.metadata, f)]: [memo] lists the dicts already
    written, in the order they were met. *)
Fixpoint pickle_dump (h : heap_t) (memo : list loc) (metas : list loc)
  : list pickled_dict :=
  match metas with
  | [] => []
  | l :: rest =>
      match list_find (λ l', l' = l) memo with
      | Some (j, _) => PMemo j :: pickle_dump h memo rest
      | None => PDict (deref h l) :: pickle_dump h (memo ++ [l]) rest
      end
  end.

(** [pickle.load(f)] for a metadata list: [created] lists the dicts built
    so far.  A reference to a dict that was never written is a parse
    error. *)
Fixpoint pickle_load (created : list loc) (p : list pickled_dict) (h : heap_t)
  : option (list loc * heap_t) :=
  match p with
  | [] => Some ([], h)
  | PDict content :: rest =>
      let l := length h in
      '(ls, h') ← pickle_load (created ++ [l]) rest (h ++ [content]);
      Some (l :: ls, h')
  | PMemo j :: rest =>
      l ← created !! j;
      '(ls, h') ← pickle_load created rest h;
      Some (l :: ls, h')
  end.

Definition set_index_faiss (f : option (artifact Index.t)) (dir : folder) :=
  mkDir f (documents_pkl dir) (metadata_pkl dir) (model_name_txt dir).
Definition set_documents_pkl (f : option (artifact (list string))) (dir : folder) :=
  mkDir (index_faiss dir) f (metadata_pkl dir) (model_name_txt dir).
Definition set_metadata_pkl (f : option (artifact (list pickled_dict))) (dir : folder) :=
  mkDir (index_faiss dir) (documents_pkl dir) f (model_name_txt dir).
Definition set_model_name_txt (f : option (artifact string)) (dir : folder) :=
  mkDir (index_faiss dir) (documents_pkl dir) (metadata_pkl dir) f.

(** Writing one file of a directory that exists. *)
Definition write (directory : string) (f : folder → folder) : M () :=
  modify (with_disk (alter f directory)).

(** [save(directory)], for a directory the operating system lets the
    process make and write to. *)
Definition save (directory : string) : M () :=
  dsk ← gets disk;
  (* if not os.path.exists(directory): os.makedirs(directory) *)
  (match dsk !! directory with
   | Some _ => mret ()
   | None => modify (with_disk (<[directory := empty_folder]>))
   end);;
  db ← gets self;
  h ← gets heap;
  (match index db with
   | Some ix => write directory (set_index_faiss (Some (Valid ix)))
   | None => mret ()
   end);;
  write directory (set_documents_pkl (Some (Valid (documents db))));;
  write directory (set_metadata_pkl (Some (Valid (pickle_dump h [] (metadata db)))));;
  write directory (set_model_name_txt (Some (Valid (model_name db)))).

(** Python's [str.isspace] on the code points below 256: the ASCII
    controls 9 to 13 and 28 to 31, the space, U+0085 and U+00A0. *)
Definition isspace (c : Ascii.ascii) : bool :=
  let n := Ascii.nat_of_ascii c in
  (9 <=? n) && (n <=? 13) || (28 <=? n) && (n <=? 32)
  || (n =? 133) || (n =? 160).

Fixpoint lstrip (s : string) : string :=
  match s with
  | EmptyString => EmptyString
  | String c s' => if isspace c then lstrip s' else s
  end.

(** [str.strip()]. *)
Definition strip (s : string) : string :=
  String.rev (lstrip (String.rev (lstrip s))).

(** What [f.read()] returns for a file opened with [open(path, 'r')]: in
    text mode every line ending, a carriage return followed by a line
    feed or a carriage return alone, is read as one line feed. *)
Fixpoint universal_newlines (s : string) : string :=
  match s with
  | EmptyString => EmptyString
  | String c s' =>
      if (Ascii.nat_of_ascii c =? 13) then
        String (Ascii.ascii_of_nat 10)
          (match s' with
           | String c' s'' =>
               if (Ascii.nat_of_ascii c' =? 10) then universal_newlines s''
               else universal_newlines s'
           | EmptyString => EmptyString
           end)
      else String c (universal_newlines s')
  end.

(** Opening and reading one file: [open] raises [FileNotFoundError] on a
    missing file or directory, the reader raises on bytes it rejects. *)
Definition read {A} (directory : string) (file : folder → option (artifact A))
  : M A :=
  dsk ← gets disk;
  match dsk !! directory ≫= file with
  | Some (Valid a) => mret a
  | Some Unreadable | None => raise CorruptState
  end.

Definition unpickle_metadata (p : list pickled_dict) : M (list loc) := λ s,
  match pickle_load [] p (heap s) with
  | Some (metas, h') => (Ok metas, with_heap (λ _, h') s)
  | None => (Raise CorruptState, s)
  end.

Section Pretrained.

(** [AutoTokenizer.from_pretrained] and [AutoModel.from_pretrained]: the
    model a name stands for.  Every name stands for one here; the two
    functions raise for a name that is no model, and a theorem about
    [load] that returns is about names that are. *)
Variable from_pretrained : string → embedder.

(** [__init__]. *)
Definition init (model_name : string) : VectorDatabase :=
  mkDB model_name (from_pretrained model_name) None [] [].

(** [load] is a class method: it builds a new object and returns it, the
    object the state calls [self] is not touched. *)
Definition load (directory : string) : M VectorDatabase :=
  name ← read directory model_name_txt;
  let db := init (strip (universal_newlines name)) in
  docs ← read directory documents_pkl;
  let db := set_documents docs db in
  p ← read directory metadata_pkl;
  metas ← unpickle_metadata p;
  let db := set_metadata metas db in
  dsk ← gets disk;
  (* if os.path.exists(index_path): db.index = faiss.read_index(index_path) *)
  match dsk !! directory ≫= index_faiss with
  | None => mret db
  | Some (Valid ix) => mret (set_index (Some ix) db)
  | Some Unreadable => raise CorruptState
  end.

End Pretrained.

(** The state a fresh interpreter is in once [VectorDatabase(name)] has
    been built. *)
Definition initial_state (from_pretrained : string → embedder) (name : string)
  : state :=
  mkState (init from_pretrained name) [] ∅ [].

(** ** What the callers of the class do between two calls *)

Inductive call :=
  | AddDocuments (docs : list string) (metas : option (list loc))
  | Search (query : string) (k : nat)
  | Save (directory : string)
  (** the caller builds a dict of its own, to pass as metadata later *)
  | NewDict (content : dict).

Definition run_call (c : call) (s : state) : state :=
  match c with
  | AddDocuments docs metas => (add_documents docs metas s).2
  | Search query k => (search query k s).2
  | Save directory => (save directory s).2
  | NewDict content => with_heap (λ h, h ++ [content]) s
  end.

Definition run_calls (cs : list call) (s : state) : state :=
  foldl (λ s c, run_call c s) s cs.

(** ** The methods in closed form *)

(** The heap once the stamping loop has gone through [metadata]. *)
Fixpoint stamped (start_idx i : nat) (metadata : list loc) (h : heap_t) : heap_t :=
  match metadata with
  | [] => h
  | meta :: rest =>
      stamped start_idx (S i) rest
        (alter (<["document_idx" := VInt (Z.of_nat (start_idx + i))]>) meta h)
  end.

(** The outcome of [add_documents] on a batch that is not empty, one case
    per place where the method can stop. *)
Definition add_documents_outcome (texts : list string) (metas : option (list loc))
    (s : state) : result () * state :=
  let s1 := with_embed_calls (λ c, c ++ [texts]) s in
  match model (self s) texts with
  | None => (Raise EmbeddingError, s1)
  | Some e =>
      let ix0 := default (Index.create (shape1 e)) (index (self s)) in
      match Index.add ix0 e with
      | Raise err => (Raise err, with_self (set_index (Some ix0)) s1)
      | Ok ix' =>
          let s2 :=
            with_self (λ db, set_documents (documents db ++ texts)
                               (set_index (Some ix') db)) s1 in
          let '(ms, s3) :=
            match metas with
            | None => (seq (length (heap s)) (length texts),
                       with_heap (λ h, h ++ replicate (length texts) ∅) s2)
            | Some ms => (ms, s2)
            end in
          if decide (length ms = length texts) then
            (Ok (), with_self (λ db, set_metadata (metadata db ++ ms) db)
                      (with_heap (stamped (length (documents (self s))) 0 ms) s3))
          else (Raise LengthMismatch, s3)
      end
  end.

(** The loop of [search] as a function of what it reads. *)
Fixpoint format (docs : list string) (metas : list dict) (i : nat)
    (hits : list (nat * Z)) : result (list search_result) :=
  match hits with
  | [] => Ok []
  | (idx, distance) :: rest =>
      match docs !! idx, metas !! idx with
      | Some text, Some meta =>
          match format docs metas (S i) rest with
          | Ok results => Ok (mkResult (i + 1) idx distance text meta :: results)
          | Raise e => Raise e
          end
      | _, _ => Raise NotFound
      end
  end.

Definition search_outcome (query : string) (k : nat) (s : state)
  : result (list search_result) * state :=
  match index (self s), documents (self s) with
  | None, _ | _, [] => (Ok [], s)
  | Some ix, _ :: _ =>
      let s1 := with_embed_calls (λ c, c ++ [[query]]) s in
      match model (self s) [query] with
      | None => (Raise EmbeddingError, s1)
      | Some e =>
          match Index.search ix e (k `min` length (documents (self s))) with
          | Raise err => (Raise err, s1)
          | Ok [] => (Raise NotFound, s1)
          | Ok (hits0 :: _) =>
              (format (documents (self s))
                 (deref (heap s) <$> metadata (self s)) 0 hits0, s1)
          end
      end
  end.

(** ** A small instance

    A model that answers every batch, with one row per text: two columns
    for most batches, three for a batch whose first text is ["wide"]. *)
Definition toy_model : embedder := λ texts,
  match texts with
  | "wide" :: _ =>
      Some (mk_ndarray 3 ((λ t, [Z.of_nat (String.length t); 1; 0]%Z) <$> texts))
  | _ =>
      Some (mk_ndarray 2 ((λ t, [Z.of_nat (String.length t); 1]%Z) <$> texts))
  end.

Definition toy_state : state := initial_state (λ _, toy_model) "toy".

(** ** The alignment of the three sequences *)

Definition index_count (db : VectorDatabase) : nat :=
  from_option Index.ntotal 0 (index db).

(** As many vectors as documents, as many metadata dicts as documents. *)
Definition aligned (db : VectorDatabase) : Prop :=
  index_count db = length (documents db) ∧
  length (metadata db) = length (documents db).

(** The width of the index, once there is one. *)
Definition index_dimension (db : VectorDatabase) : option nat :=
  Index.d <$> index db.

(** What [save] leaves in a folder that held [old]. *)
Definition saved_folder (db : VectorDatabase) (h : heap_t) (old : folder) : folder :=
  mkDir
    (match index db with
     | Some ix => Some (Valid ix)
     | None => index_faiss old
     end)
    (Some (Valid (documents db)))
    (Some (Valid (pickle_dump h [] (metadata db))))
    (Some (Valid (model_name db))).

(** ** What [load] asks of a folder *)

Definition parses {A} (f : option (artifact A)) : Prop := ∃ a, f = Some (Valid a).

(** The three files [load] opens without asking are there and parse; the
    index file parses if it is there. *)
Definition load_accepts (h : heap_t) (dir : folder) : Prop :=
  parses (model_name_txt dir) ∧
  parses (documents_pkl dir) ∧
  (∃ p, metadata_pkl dir = Some (Valid p) ∧ is_Some (pickle_load [] p h)) ∧
  index_faiss dir ≠ Some Unreadable.

(** Two folders a disk may hold: one without index file, one whose index
    holds two vectors for a single document. *)
Definition folder_without_index : folder :=
  mkDir None (Some (Valid ["a"])) (Some (Valid [PDict ∅])) (Some (Valid "toy")).

Definition folder_two_vectors_one_document : folder :=
  mkDir (Some (Valid (Index.mk 2 [[1; 1]; [2; 1]]%Z)))
        (Some (Valid ["a"])) (Some (Valid [PDict ∅])) (Some (Valid "toy")).

Definition on_disk (directory : string) (dir : folder) : state :=
  with_disk (<[directory := dir]>) toy_state.

(** What [load] builds from a folder, and the heap with the dicts it has
    unpickled; nothing when one of its readers raises. *)
Definition load_result (from_pretrained : string → embedder) (dir : folder)
    (h : heap_t) : option (VectorDatabase * heap_t) :=
  match model_name_txt dir, documents_pkl dir, metadata_pkl dir with
  | Some (Valid name), Some (Valid docs), Some (Valid p) =>
      match pickle_load [] p h, index_faiss dir with
      | Some (metas, h'), None =>
          Some (mkDB (strip (universal_newlines name))
                  (from_pretrained (strip (universal_newlines name)))
                  None docs metas, h')
      | Some (metas, h'), Some (Valid ix) =>
          Some (mkDB (strip (universal_newlines name))
                  (from_pretrained (strip (universal_newlines name)))
                  (Some ix) docs metas, h')
      | _, _ => None
      end
  | _, _, _ => None
  end.

(** ** Reading a search result *)

(** The position and distance a result reports. *)
Definition hit (r : search_result) : nat * Z := (r_document_idx r, r_distance r).

(** [p] comes before [q]: a smaller distance, or the same distance and a
    lower position. *)
Definition strictly_nearer (p q : nat * Z) : Prop :=
  (p.2 < q.2)%Z ∨ (p.2 = q.2 ∧ p.1 < q.1).

(** The embedder answers a one-text batch with one row of the index's
    width. *)
Definition answers (db : VectorDatabase) (query : string) : Prop :=
  ∀ ix, index db = Some ix →
        ∃ v, model db [query] = Some (mk_ndarray (Index.d ix) [v]).

(** Four folders [load] does not take.  Each is a saved database of one
    document with one file damaged: the model name is gone, the document
    list is cut short, the metadata list is cut short, the index file is
    cut short. *)
Definition folder_saved : folder :=
  mkDir (Some (Valid (Index.mk 2 [[1; 1]%Z])))
        (Some (Valid ["a"])) (Some (Valid [PDict ∅])) (Some (Valid "toy")).

Definition folder_no_model_name : folder :=
  set_model_name_txt None folder_saved.

Definition folder_truncated_documents : folder :=
  set_documents_pkl (Some Unreadable) folder_saved.

Definition folder_truncated_metadata : folder :=
  set_metadata_pkl (Some Unreadable) folder_saved.

Definition folder_truncated_index : folder :=
  set_index_faiss (Some Unreadable) folder_saved.

(** A folder that holds nothing but an index file no reader accepts. *)
Definition folder_unreadable_index : folder :=
  mkDir (Some Unreadable) None None None.

(** Every stored document's dict is on the heap and carries the
    document's position under ['document_idx']. *)
Definition stamps_agree (s : state) : Prop :=
  ∀ i l, metadata (self s) !! i = Some l →
         l < length (heap s) ∧
         deref (heap s) l !! "document_idx" = Some (VInt (Z.of_nat i)).

(** ** More of the notebook: what the index holds, and batch processing *)

(** The vectors of the index, none when there is no index yet. *)
Definition index_vectors (db : VectorDatabase) : list (list Z) :=
  from_option Index.xb [] (index db).

(** The embedder is called on a database that holds documents and has an
    index, and only then. *)
Definition search_embeds (db : VectorDatabase) (query : string)
  : list (list string) :=
  match index db, documents db with
  | Some _, _ :: _ => [[query]]
  | _, _ => []
  end.

(** The two characters that end a line. *)
Definition carriage_return : string := String (Ascii.ascii_of_nat 13) "".
Definition line_feed : string := String (Ascii.ascii_of_nat 10) "".

(** Exceptions of [batch_process_documents]: the [ValueError] that [range]
    and [np.vstack] raise, or what [generate_embeddings] raised. *)
Inductive py_exn :=
  | ValueError
  | Raised (e : exn).

(** [range(0, stop, step)]: [ValueError] on a zero step, nothing on a
    negative one (the stop is a length), else [0, step, 2 * step, ...]
    below [stop]. *)
Definition py_range (stop : nat) (step : Z) : option (list nat) :=
  if decide (step = 0)%Z then None
  else if decide (step < 0)%Z then Some []
  else
    let step := Z.to_nat step in
    Some ((λ j, j * step) <$> seq 0 ((stop + step - 1) `div` step)).

(** [documents[i:i + batch_size]] for a positive [batch_size]. *)
Definition batch_at (documents : list string) (batch_size : Z) (i : nat)
  : list string :=
  take (Z.to_nat batch_size) (drop i documents).

(** What [print(f"Processing batch {i // batch_size + 1}/{(len(documents) -
    1) // batch_size + 1}")] shows: the two numbers. *)
Definition progress (documents : list string) (batch_size : Z) (i : nat)
  : Z * Z :=
  (Z.of_nat i `div` batch_size + 1,
   (Z.of_nat (length documents) - 1) `div` batch_size + 1)%Z.

(** The batches the loop forms, when [range] gives its positions. *)
Definition batches (documents : list string) (batch_size : Z)
  : list (list string) :=
  batch_at documents batch_size <$> default [] (py_range (length documents) batch_size).

(** [np.vstack] on a list of two-dimensional arrays: [ValueError] on the
    empty list and on arrays of different widths, else the rows of all of
    them, in order. *)
Definition vstack (arrays : list ndarray) : option ndarray :=
  match arrays with
  | [] => None
  | a :: rest =>
      if forallb (λ b, shape1 b =? shape1 a) rest
      then Some (mk_ndarray (shape1 a) (mjoin (rows <$> arrays)))
      else None
  end.

(** The loop of [batch_process_documents] over the positions [starts]: the
    lines printed, [all_embeddings] or the exception, and the state. *)
Fixpoint embed_batches (documents : list string) (batch_size : Z)
    (starts : list nat) (s : state)
  : list (Z * Z) * result (list ndarray) * state :=
  match starts with
  | [] => ([], Ok [], s)
  | i :: rest =>
      let batch := batch_at documents batch_size i in
      let line := progress documents batch_size i in
      match generate_embeddings batch s with
      | (Raise e, s') => ([line], Raise e, s')
      | (Ok embeddings, s') =>
          let '(lines, r, s'') := embed_batches documents batch_size rest s' in
          (line :: lines,
           match r with
           | Ok all_embeddings => Ok (embeddings :: all_embeddings)
           | Raise e => Raise e
           end,
           s'')
      end
  end.

Section BatchProcess.

Variable from_pretrained : string → embedder.

(** [batch_process_documents(documents, batch_size)]: the lines printed,
    the array returned or the exception, and the state.  The database it
    builds is its own: the one the state calls [self] is put back when the
    function is left. *)
Definition batch_process_documents (documents : list string) (batch_size : Z)
    (s : state) : list (Z * Z) * (py_exn + ndarray) * state :=
  let db := init from_pretrained "distilbert-base-uncased" in
  match py_range (length documents) batch_size with
  | None => ([], inl ValueError, s)
  | Some starts =>
      let '(lines, r, s') :=
        embed_batches documents batch_size starts (with_self (λ _, db) s) in
      let s'' := with_self (λ _, self s) s' in
      match r with
      | Raise e => (lines, inl (Raised e), s'')
      | Ok all_embeddings =>
          (lines,
           match vstack all_embeddings with
           | Some a => inr a
           | None => inl ValueError
           end,
           s'')
      end
  end.

End BatchProcess.

(** * Proofs *)

(** Unfolding the monad and the record updates. *)
Ltac run_monad :=
  unfold mbind, M_bind, gets, modify, raise, mret, M_ret, with_embed_calls,
    with_self, with_heap, with_disk, set_index, set_documents, set_metadata,
    set_model, default.

Lemma stamp_run start_idx metas : ∀ i s,
  stamp start_idx i metas s = (Ok (), with_heap (stamped start_idx i metas) s).
Proof.
  induction metas as [|meta rest IH]; intros i s; [by destruct s|].
  cbn. unfold mbind, M_bind, dict_setitem, modify. rewrite IH. by destruct s.
Qed.

Lemma add_documents_unfold doc docs metas s :
  add_documents (doc :: docs) metas s = add_documents_outcome (doc :: docs) metas s.
Proof.
  destruct s as [[name E ix txts ms] h dsk calls].
  unfold add_documents, add_documents_outcome, generate_embeddings, index_add,
    fresh_dicts.
  run_monad. cbn -[Index.add stamp stamped seq replicate].
  destruct (E (doc :: docs)) as [e|]; [|done].
  destruct ix as [ix|]; cbn -[Index.add stamp stamped seq replicate];
    (destruct (Index.add _ e) as [ix'|err]; [|done]);
    destruct metas as [metas|]; cbn -[stamp stamped seq replicate];
    (destruct (decide _); [|done]); by rewrite stamp_run.
Qed.

Lemma format_results_run hits : ∀ i s,
  format_results i hits s =
    (format (documents (self s)) (deref (heap s) <$> metadata (self s)) i hits, s).
Proof.
  induction hits as [|[idx distance] rest IH]; intros i s; [done|].
  cbn. run_monad. cbn. rewrite list_lookup_fmap.
  destruct (documents (self s) !! idx) as [text|]; [|done].
  destruct (metadata (self s) !! idx) as [meta|]; [|done].
  cbn. rewrite IH. by destruct (format _ _ _ _).
Qed.

Lemma search_unfold query k s : search query k s = search_outcome query k s.
Proof.
  destruct s as [[name E ix txts ms] h dsk calls].
  unfold search, search_outcome, generate_embeddings. run_monad.
  cbn -[Index.search format_results format].
  destruct ix as [ix|]; [|done]. destruct txts as [|txt txts]; [done|].
  cbn -[Index.search format_results format].
  destruct (E [query]) as [e|]; [|done].
  cbn -[Index.search format_results format].
  destruct (Index.search _ _ _) as [[|hits0 ?]|err]; try done.
  by rewrite format_results_run.
Qed.

(** ** Insertion *)

(** C10.  [add_documents] on an empty list of documents returns normally
    and leaves the whole state as it was: the index, the document list,
    the metadata list, the dicts, the disk, and the record of the calls
    made to the embedder, which is therefore not invoked. *)
Theorem add_documents_empty metas s :
  add_documents [] metas s = (Ok (), s) ∧
  embed_calls (add_documents [] metas s).2 = embed_calls s.
Proof. done. Qed.

(** C8.  After a call of [add_documents] that returns normally, the
    total count is the count before plus the size of the batch (for every
    batch, the empty one included). *)
Theorem add_documents_total_count docs metas s s' :
  add_documents docs metas s = (Ok (), s') →
  total_count (self s') = total_count (self s) + length docs.
Proof.
  destruct docs as [|doc docs].
  { intros [= <-]. unfold total_count. cbn. lia. }
  rewrite add_documents_unfold. unfold add_documents_outcome.
  destruct (model _ _) as [e|]; [|done].
  destruct (Index.add _ _) as [ix'|]; [|done].
  destruct metas as [ms|]; (destruct (decide _); [|done]); intros [= <-];
    destruct s as [[]]; unfold total_count; cbn; by rewrite length_app.
Qed.

Lemma add_documents_total_count_witness :
  total_count (self (add_documents ["a"; "bb"] None toy_state).2)
  = total_count (self toy_state) + 2.
Proof.
  apply (add_documents_total_count ["a"; "bb"] None toy_state). reflexivity.
Defined.

(** What a call leaves alone. *)
Lemma search_frame query k s :
  ∃ calls, (search query k s).2 = with_embed_calls (λ _, calls) s.
Proof.
  rewrite search_unfold. unfold search_outcome.
  destruct s as [db h dsk calls]. cbn.
  destruct (index db); [|by eexists]. destruct (documents db); [by eexists|].
  destruct (model db _); [|by eexists].
  destruct (Index.search _ _ _) as [[|]|]; by eexists.
Qed.

Lemma save_run directory s :
  save directory s =
    (Ok (), with_disk (λ dsk,
       <[directory := saved_folder (self s) (heap s)
                        (default empty_folder (dsk !! directory))]> dsk) s).
Proof.
  destruct s as [[name E ix txts ms] h dsk calls].
  unfold save, write, saved_folder. run_monad. cbn.
  assert (∀ (f : folder → folder) x (m : gmap string folder),
    alter f directory (<[directory := x]> m) = <[directory := f x]> m) as Hins.
  { intros f x m. apply map_eq. intros i. rewrite lookup_alter.
    destruct (decide (directory = i)) as [->|];
      by rewrite ?lookup_insert_eq, ?lookup_insert_ne. }
  destruct (dsk !! directory) as [old|] eqn:Hold; cbn.
  - rewrite <- (insert_id dsk directory old Hold) at 1.
    destruct ix as [ix|]; cbn; by rewrite !Hins.
  - destruct ix as [ix|]; cbn; by rewrite !Hins.
Qed.

Lemma run_call_model c s : model (self (run_call c s)) = model (self s).
Proof.
  destruct c as [docs metas|query k|directory|content]; cbn.
  - destruct docs as [|doc docs]; [done|].
    rewrite add_documents_unfold. unfold add_documents_outcome.
    destruct s as [[]]; cbn. destruct (model0 _); [|done].
    destruct (Index.add _ _); [|done].
    destruct metas; cbn; by destruct (decide _).
  - destruct (search_frame query k s) as [calls ->]. by destruct s.
  - rewrite save_run. by destruct s.
  - by destruct s.
Qed.

Lemma run_calls_cons c cs s : run_calls (c :: cs) s = run_calls cs (run_call c s).
Proof. done. Qed.

Lemma run_calls_model cs : ∀ s, model (self (run_calls cs s)) = model (self s).
Proof.
  induction cs as [|c cs IH]; intros s; [done|].
  by rewrite run_calls_cons, IH, run_call_model.
Qed.

Lemma add_documents_dimension docs metas s n :
  index_dimension (self s) = Some n →
  index_dimension (self (add_documents docs metas s).2) = Some n.
Proof.
  destruct docs as [|doc docs]; [done|].
  rewrite add_documents_unfold. unfold add_documents_outcome, index_dimension.
  destruct s as [[name E [ix|] txts ms] h dsk calls]; cbn; [|done].
  intros Hn. destruct (E _) as [e|]; [|done]. unfold Index.add.
  destruct (decide _); [|done].
  destruct metas; cbn; by destruct (decide _).
Qed.

Lemma run_call_dimension c s n :
  index_dimension (self s) = Some n →
  index_dimension (self (run_call c s)) = Some n.
Proof.
  destruct c as [docs metas|query k|directory|content]; cbn.
  - apply add_documents_dimension.
  - destruct (search_frame query k s) as [calls ->]. by destruct s.
  - rewrite save_run. by destruct s.
  - by destruct s.
Qed.

Lemma run_calls_dimension cs : ∀ s n,
  index_dimension (self s) = Some n →
  index_dimension (self (run_calls cs s)) = Some n.
Proof.
  induction cs as [|c cs IH]; intros s n Hn; [done|].
  rewrite run_calls_cons. by apply IH, run_call_dimension.
Qed.

(** The first batch that reaches the index gives it its width. *)
Lemma first_batch_dimension doc docs metas s e :
  index (self s) = None → model (self s) (doc :: docs) = Some e →
  index_dimension (self (add_documents (doc :: docs) metas s).2) = Some (shape1 e).
Proof.
  intros Hix He. rewrite add_documents_unfold.
  unfold add_documents_outcome, index_dimension. rewrite He, Hix.
  destruct s as [[]]; cbn. unfold Index.add. cbn.
  destruct (decide _); [|done].
  destruct metas; cbn; by destruct (decide _).
Qed.

(** On a list of the caller's own the method is [add_documents]; the
    database's own metadata list, passed as metadata, is read before
    anything is appended to it. *)
Lemma add_documents_passed_caller docs given s :
  add_documents_passed (Caller docs) (Dicts <$> given) s
  = add_documents docs (given_metas s given) s.
Proof.
  destruct s as [[name E ix txts ms] h dsk calls].
  unfold add_documents_passed, add_documents, given_metas, read_documents,
    read_metadata, index_add, generate_embeddings.
  destruct docs as [|doc docs]; [done|]. run_monad. cbn -[stamp].
  destruct (E _) as [e|]; [|done]. cbn -[stamp].
  destruct ix as [ix|]; cbn -[stamp];
    (destruct (Index.add _ _) as [ix'|err]; [|done]); cbn -[stamp];
    by destruct given as [[metas|]|].
Qed.

(** C1, as amended.  When metadata is given and its length is not the
    number of texts: on an empty list of texts the call returns normally
    and changes nothing; on a list of texts that is not empty and is not
    the database's own document list, with metadata that is not that list
    either, an embedder that answers and an index that takes the array
    (none yet, or one of the array's width), the call fails with
    [LengthMismatch], and the metadata list and every dict are as they
    were. *)
Theorem add_documents_length_mismatch batch given docs s :
  passed_list (documents (self s)) batch = docs →
  given_length s given ≠ length docs →
  (docs = [] → add_documents_passed batch (Some given) s = (Ok (), s)) ∧
  (docs ≠ [] → batch = Caller docs → given ≠ Texts →
     ∀ e, model (self s) docs = Some e →
     (∀ ix, index (self s) = Some ix → shape1 e = Index.d ix) →
     ∃ s', add_documents_passed batch (Some given) s = (Raise LengthMismatch, s') ∧
           metadata (self s') = metadata (self s) ∧ heap s' = heap s).
Proof.
  intros Hdocs Hlen. split.
  { intros ->. unfold add_documents_passed, read_documents, mbind, M_bind, gets.
    by rewrite Hdocs. }
  intros Hne -> Hgiven e He Hd. destruct given as [metas|]; [|done].
  change (Some (Dicts metas)) with (Dicts <$> Some metas).
  rewrite add_documents_passed_caller.
  unfold given_metas. cbn [fmap option_fmap option_map]. cbn in Hlen.
  destruct docs as [|doc docs]; [done|].
  rewrite add_documents_unfold. unfold add_documents_outcome. rewrite He.
  destruct s as [[name E ix txts ms] h dsk calls]. cbn in *.
  unfold Index.add. rewrite decide_True; [|by destruct ix as [ix|]; [apply Hd|]].
  cbn. rewrite decide_False by done. by eexists.
Qed.

Lemma add_documents_length_mismatch_witness :
  (∃ s', add_documents_passed (Caller ["a"; "bb"]) (Some (Dicts (Caller [0])))
           (run_call (NewDict ∅) toy_state)
         = (Raise LengthMismatch, s') ∧
         metadata (self s') = [] ∧ heap s' = [∅]) ∧
  add_documents_passed Own (Some (Dicts (Caller [0])))
    (run_call (NewDict ∅) toy_state)
  = (Ok (), run_call (NewDict ∅) toy_state).
Proof.
  split.
  - destruct (add_documents_length_mismatch (Caller ["a"; "bb"])
                (Dicts (Caller [0])) ["a"; "bb"]
                (run_call (NewDict ∅) toy_state)
                eq_refl ltac:(cbn; lia)) as [_ H].
    apply (H ltac:(done) eq_refl ltac:(done)
             (mk_ndarray 2 [[1; 1]; [2; 1]]%Z) eq_refl).
    intros ix Hix. discriminate Hix.
  - destruct (add_documents_length_mismatch Own (Dicts (Caller [0])) []
                (run_call (NewDict ∅) toy_state)
                eq_refl ltac:(cbn; lia)) as [H _].
    apply (H eq_refl).
Defined.

(** C1, as stated, fails at four inputs.  With no text and one dict the
    call returns normally.  With one text and no dict the call does raise,
    but the index and the document list have already grown.  With the
    database's own list of one text and two dicts, the list has two texts
    by the time the lengths are compared, and the call returns normally.
    With one text and, as metadata, the document list of a database that
    holds none, the list holds the text by the time the lengths are
    compared, and the call fails on the text, which is no dict. *)
Lemma add_documents_length_mismatch_counterexample :
  (length [0] ≠ length (@nil string) ∧
   (add_documents [] (Some [0]) (run_call (NewDict ∅) toy_state)).1 = Ok ()) ∧
  (length (@nil loc) ≠ length ["a"] ∧
   let s' := (add_documents ["a"] (Some []) toy_state).2 in
   (add_documents ["a"] (Some []) toy_state).1 = Raise LengthMismatch ∧
   index (self toy_state) = None ∧
   index (self s') = Some (Index.mk 2 [[1; 1]%Z]) ∧
   documents (self toy_state) = [] ∧
   documents (self s') = ["a"] ∧
   total_count (self s') ≠ total_count (self toy_state)) ∧
  (let s := run_calls [AddDocuments ["a"] None; NewDict ∅; NewDict ∅] toy_state in
   let s' := (add_documents_passed Own (Some (Dicts (Caller [1; 2]))) s).2 in
   documents (self s) = ["a"] ∧
   length [1; 2] ≠ length (documents (self s)) ∧
   (add_documents_passed Own (Some (Dicts (Caller [1; 2]))) s).1 = Ok () ∧
   documents (self s') = ["a"; "a"] ∧
   metadata (self s') = [0; 1; 2]) ∧
  (given_length toy_state Texts ≠ length ["a"] ∧
   (add_documents_passed (Caller ["a"]) (Some Texts) toy_state).1
     = Raise TypeError).
Proof.
  split; [|split; [|split]].
  - split; [cbn; lia|done].
  - repeat split; try done; cbn; lia.
  - vm_compute. repeat split; (done || lia).
  - vm_compute. split; (done || lia).
Qed.

(** C2.  The three sequences are aligned when the object is built, and
    no longer after a call of [add_documents] that fails on the length of
    the metadata: the index and the document list hold the batch, the
    metadata list does not.  The next search then fails on the metadata
    list. *)
Theorem failed_add_documents_breaks_alignment :
  let s' := (add_documents ["a"] (Some []) toy_state).2 in
  aligned (self toy_state) ∧
  (add_documents ["a"] (Some []) toy_state).1 = Raise LengthMismatch ∧
  index_count (self s') = 1 ∧
  length (documents (self s')) = 1 ∧
  length (metadata (self s')) = 0 ∧
  ¬ aligned (self s') ∧
  (search "a" 1 s').1 = Raise NotFound.
Proof.
  cbn. repeat split; try done. intros [_ H]. discriminate H.
Qed.

(** ** What a call that returns normally keeps *)

Lemma initial_aligned from_pretrained name :
  aligned (self (initial_state from_pretrained name)).
Proof. done. Qed.

(** With an embedder that returns one row per text, a call that returns
    normally keeps the three sequences aligned. *)
Lemma add_documents_keeps_aligned docs metas s s' :
  (∀ e, model (self s) docs = Some e → length (rows e) = length docs) →
  aligned (self s) →
  add_documents docs metas s = (Ok (), s') →
  aligned (self s').
Proof.
  intros Hrows Haligned. destruct docs as [|doc docs]; [by intros [= <-]|].
  rewrite add_documents_unfold. unfold add_documents_outcome.
  destruct (model _ _) as [e|]; [|done]. specialize (Hrows e eq_refl).
  destruct s as [[name E ix txts ms] h dsk calls].
  destruct Haligned as [Hcount Hmetas]. unfold aligned, index_count in *.
  cbn in *. unfold Index.add. destruct (decide _); [|done].
  assert (length (Index.xb (default (Index.create (shape1 e)) ix))
          = length txts) as Hxb.
  { by destruct ix. }
  destruct metas as [metas|]; cbn; (destruct (decide _) as [Hlen|]; [|done]);
    intros [= <-]; cbn; unfold Index.ntotal; cbn;
    rewrite !length_app; cbn; lia.
Qed.

(** The stamping loop on dicts that are all different and all on the
    heap: each one carries the stamp of its place, the others are as they
    were. *)
Lemma stamped_distinct start_idx metas : ∀ i h,
  NoDup metas → Forall (λ l, l < length h) metas →
  length (stamped start_idx i metas h) = length h ∧
  (∀ j l, metas !! j = Some l →
     deref (stamped start_idx i metas h) l !! "document_idx"
       = Some (VInt (Z.of_nat (start_idx + (i + j))))) ∧
  (∀ l, l ∉ metas → deref (stamped start_idx i metas h) l = deref h l).
Proof.
  induction metas as [|meta rest IH]; intros i h Hnodup Hbound.
  { repeat split; try done. }
  apply NoDup_cons in Hnodup as [Hmeta Hnodup].
  apply Forall_cons in Hbound as [Hlt Hbound].
  set (h1 := alter (<["document_idx" := VInt (Z.of_nat (start_idx + i))]>) meta h).
  destruct (IH (S i) h1 Hnodup) as (Hlen & Hstamps & Hothers).
  { unfold h1. by rewrite length_alter. }
  cbn. fold h1. split; [|split].
  - rewrite Hlen. unfold h1. by rewrite length_alter.
  - intros [|j] l Hl; cbn in Hl.
    + injection Hl as <-. rewrite (Hothers meta Hmeta). unfold deref, h1.
      rewrite list_lookup_alter_eq.
      destruct (lookup_lt_is_Some_2 h meta Hlt) as [content ->]. cbn.
      by rewrite lookup_insert_eq, Nat.add_0_r.
    + rewrite (Hstamps j l Hl). do 3 f_equal. lia.
  - intros l Hl. apply not_elem_of_cons in Hl as [Hne Hl].
    rewrite (Hothers l Hl). unfold deref, h1.
    by rewrite list_lookup_alter_ne.
Qed.

(** The path without metadata makes one new dict per document: on an
    aligned database whose stamps agree, the stamps agree after the call. *)
Lemma add_documents_fresh_stamps docs s s' :
  length (metadata (self s)) = length (documents (self s)) →
  stamps_agree s →
  add_documents docs None s = (Ok (), s') →
  stamps_agree s'.
Proof.
  intros Hmetas Hagree. destruct docs as [|doc docs]; [by intros [= <-]|].
  rewrite add_documents_unfold. unfold add_documents_outcome.
  destruct (model _ _) as [e|]; [|done].
  destruct (Index.add _ _) as [ix'|]; [|done].
  rewrite length_seq, decide_True by done.
  destruct s as [[name E ix txts ms] h dsk calls].
  unfold stamps_agree in *. cbn -[stamped seq replicate] in *.
  intros [= <-]. cbn -[stamped seq replicate].
  set (n := S (length docs)).
  destruct (stamped_distinct (length txts) (seq (length h) n) 0
              (h ++ replicate n ∅)) as (Hlen & Hstamps & Hothers).
  { apply NoDup_seq. }
  { apply Forall_forall. intros l Hl%elem_of_seq.
    rewrite length_app, length_replicate. lia. }
  intros i l Hl.
  change (length h :: seq _ _) with (seq (length h) n) in Hl.
  change (stamped (length txts) 1 _ _)
    with (stamped (length txts) 0 (seq (length h) n) (h ++ replicate n ∅)).
  rewrite Hlen, length_app, length_replicate.
  apply lookup_app_Some in Hl as [Hl|[Hi Hl]].
  - destruct (Hagree i l Hl) as [Hlt Hstamp]. split; [lia|].
    rewrite Hothers by (rewrite elem_of_seq; lia).
    unfold deref in *. by rewrite lookup_app_l.
  - apply lookup_seq in Hl as [-> Hlt]. split; [lia|].
    rewrite (Hstamps (i - length ms) (length h + (i - length ms)))
      by by apply lookup_seq_lt.
    do 3 f_equal. lia.
Qed.

(** C7.  The first batch that reaches the index fixes its width to the
    width of that batch's embeddings.  Whatever calls follow, an
    [add_documents] whose embeddings have another width fails with
    [DimensionMismatch] and leaves the database object, the dicts and the
    disk as they were; in particular the total count is the one before the
    call. *)
Theorem dimension_fixed_by_first_batch s0 docs0 metas0 e0 calls docs metas e :
  index (self s0) = None →
  docs0 ≠ [] →
  model (self s0) docs0 = Some e0 →
  let s := run_calls calls (add_documents docs0 metas0 s0).2 in
  docs ≠ [] →
  model (self s0) docs = Some e →
  shape1 e ≠ shape1 e0 →
  index_dimension (self s) = Some (shape1 e0) ∧
  ∃ s', add_documents docs metas s = (Raise DimensionMismatch, s') ∧
        self s' = self s ∧ heap s' = heap s ∧ disk s' = disk s ∧
        total_count (self s') = total_count (self s).
Proof.
  intros Hix0 Hdocs0 He0 s Hdocs He Hne.
  destruct docs0 as [|doc0 docs0]; [done|].
  destruct docs as [|doc docs]; [done|].
  assert (index_dimension (self s) = Some (shape1 e0)) as Hdim.
  { by apply run_calls_dimension, first_batch_dimension. }
  assert (model (self s) = model (self s0)) as Hmodel.
  { unfold s. rewrite run_calls_model.
    apply (run_call_model (AddDocuments (doc0 :: docs0) metas0)). }
  split; [done|].
  rewrite add_documents_unfold. unfold add_documents_outcome.
  rewrite Hmodel, He. unfold index_dimension in Hdim.
  destruct (index (self s)) as [ix|] eqn:Hix; [|done].
  injection Hdim as Hdim. cbn. unfold Index.add.
  rewrite decide_False by congruence.
  eexists. split; [done|]. clearbody s. destruct s as [[]]. cbn in *.
  by subst.
Qed.

Lemma dimension_fixed_by_first_batch_witness :
  let s := run_calls [Search "b" 1; NewDict ∅; AddDocuments ["cc"] (Some [2])]
             (add_documents ["a"; "bb"] None toy_state).2 in
  index_dimension (self s) = Some 2 ∧
  ∃ s', add_documents ["wide"; "d"] None s = (Raise DimensionMismatch, s') ∧
        self s' = self s ∧ heap s' = heap s ∧ disk s' = disk s ∧
        total_count (self s') = total_count (self s).
Proof.
  apply (dimension_fixed_by_first_batch toy_state ["a"; "bb"] None
           (mk_ndarray 2 [[1; 1]; [2; 1]]%Z)
           [Search "b" 1; NewDict ∅; AddDocuments ["cc"] (Some [2])]
           ["wide"; "d"] None
           (mk_ndarray 3 [[4; 1; 0]; [1; 1; 0]]%Z)); done.
Defined.

(** C9.  A dict passed twice in one batch is one object: the loop stamps
    it twice and the second stamp stays.  After
    [m = {"source": "proverb"}; db.add_documents(["a", "bb"], [m, m])]
    the metadata of document 0 carries [document_idx = 1], and so does the
    search result whose id is 0. *)
Theorem shared_dict_carries_last_stamp :
  let s := run_call (NewDict {["source" := VStr "proverb"]}) toy_state in
  let s' := (add_documents ["a"; "bb"] (Some [0; 0]) s).2 in
  (add_documents ["a"; "bb"] (Some [0; 0]) s).1 = Ok () ∧
  metadata (self s') = [0; 0] ∧
  deref (heap s') 0 !! "document_idx" = Some (VInt 1) ∧
  ∃ r, (search "a" 1 s').1 = Ok [r] ∧
       r_document_idx r = 0 ∧
       r_metadata r !! "document_idx" = Some (VInt 1).
Proof.
  cbn. repeat split; try done. eexists. repeat split; done.
Qed.

(** ** Loading *)

Lemma load_run from_pretrained directory s :
  match disk s !! directory ≫= λ dir, load_result from_pretrained dir (heap s) with
  | Some (db, h') =>
      load from_pretrained directory s = (Ok db, with_heap (λ _, h') s)
  | None => ∃ s', load from_pretrained directory s = (Raise CorruptState, s')
  end.
Proof.
  destruct s as [db0 h dsk calls].
  unfold load, read, unpickle_metadata, load_result, init. run_monad. cbn.
  destruct (dsk !! directory) as [[ix docs p name]|] eqn:Hdir; cbn;
    [|by eexists].
  destruct name as [[name|]|]; cbn; rewrite ?Hdir; cbn; try by eexists.
  destruct docs as [[docs|]|]; cbn; rewrite ?Hdir; cbn; try by eexists.
  destruct p as [[p|]|]; cbn; rewrite ?Hdir; cbn; try by eexists.
  destruct (pickle_load [] p h) as [[metas h']|]; cbn; rewrite ?Hdir; cbn;
    [|by eexists].
  destruct ix as [[ix|]|]; cbn; try done. by eexists.
Qed.

Lemma load_result_accepts from_pretrained dir h :
  is_Some (load_result from_pretrained dir h) ↔ load_accepts h dir.
Proof.
  unfold load_result, load_accepts, parses.
  destruct dir as [ix docs p name]; cbn. split.
  - intros [x Hx].
    destruct name as [[name|]|]; try done.
    destruct docs as [[docs|]|]; try done.
    destruct p as [[p|]|]; try done.
    destruct (pickle_load [] p h) as [[metas h']|] eqn:Hp; try done.
    split; [by eexists|]. split; [by eexists|]. split.
    { eexists. split; [done|]. by rewrite Hp. }
    by intros ->.
  - intros [[name' ->] [[docs' ->] [(p' & -> & [[metas h'] ->]) Hix]]].
    destruct ix as [[ix|]|]; done.
Qed.

(** C4, as amended.  [load] fails with [CorruptState], and returns no
    database, whenever the folder is not there, or the model name, the
    document list or the metadata list is missing or does not parse, or
    the index file is there and does not parse. *)
Theorem load_fails from_pretrained directory s :
  (disk s !! directory = None ∨
   ∃ dir, disk s !! directory = Some dir ∧
     (¬ parses (model_name_txt dir) ∨
      ¬ parses (documents_pkl dir) ∨
      ¬ (∃ p, metadata_pkl dir = Some (Valid p) ∧
              is_Some (pickle_load [] p (heap s))) ∨
      index_faiss dir = Some Unreadable)) →
  ∃ s', load from_pretrained directory s = (Raise CorruptState, s').
Proof.
  intros Hbad. pose proof (load_run from_pretrained directory s) as Hrun.
  destruct (disk s !! directory ≫= _) as [[db h']|] eqn:Hres; [|done].
  exfalso. destruct (disk s !! directory) as [dir|] eqn:Hdir; [|done].
  cbn in Hres.
  assert (load_accepts (heap s) dir) as (Hname & Hdocs & Hmetas & Hix).
  { apply (load_result_accepts from_pretrained). by rewrite Hres. }
  destruct Hbad as [[=]|(dir' & [= <-] & [H|[H|[H|H]]])]; by auto.
Qed.

(** C4, as stated, fails at two folders.  One has no index file: [load]
    returns a database without index.  The other holds two vectors and one
    document: [load] returns it as it is. *)
Lemma load_counterexample :
  (index_faiss folder_without_index = None ∧
   ∃ db, (load (λ _, toy_model) "db" (on_disk "db" folder_without_index)).1 = Ok db ∧
         index db = None ∧ documents db = ["a"]) ∧
  (∃ db, (load (λ _, toy_model) "db"
            (on_disk "db" folder_two_vectors_one_document)).1 = Ok db ∧
         index_count db = 2 ∧ length (documents db) = 1 ∧
         length (metadata db) = 1).
Proof. split; [split; [done|]|]; eexists; by repeat split. Qed.

Lemma load_fails_witness :
  (∃ s', load (λ _, toy_model) "db" toy_state = (Raise CorruptState, s')) ∧
  (∃ s', load (λ _, toy_model) "db" (on_disk "db" folder_no_model_name)
         = (Raise CorruptState, s')) ∧
  (∃ s', load (λ _, toy_model) "db" (on_disk "db" folder_truncated_documents)
         = (Raise CorruptState, s')) ∧
  (∃ s', load (λ _, toy_model) "db" (on_disk "db" folder_truncated_metadata)
         = (Raise CorruptState, s')) ∧
  (∃ s', load (λ _, toy_model) "db" (on_disk "db" folder_truncated_index)
         = (Raise CorruptState, s')).
Proof.
  split; [|split; [|split; [|split]]].
  - apply (load_fails (λ _, toy_model) "db" toy_state). by left.
  - apply (load_fails (λ _, toy_model) "db" (on_disk "db" folder_no_model_name)).
    right. exists folder_no_model_name. split; [reflexivity|].
    left. by intros [name [=]].
  - apply (load_fails (λ _, toy_model) "db"
             (on_disk "db" folder_truncated_documents)).
    right. exists folder_truncated_documents. split; [reflexivity|].
    right; left. by intros [docs [=]].
  - apply (load_fails (λ _, toy_model) "db"
             (on_disk "db" folder_truncated_metadata)).
    right. exists folder_truncated_metadata. split; [reflexivity|].
    right; right; left. by intros (p & [=] & _).
  - apply (load_fails (λ _, toy_model) "db"
             (on_disk "db" folder_truncated_index)).
    right. exists folder_truncated_index. split; [reflexivity|].
    by right; right; right.
Defined.

(** ** Searching *)

#[local] Instance nearer_trans : Transitive Index.nearer.
Proof. intros [i a] [j b] [l c]; unfold Index.nearer; cbn. lia. Qed.

#[local] Instance nearer_total : Total Index.nearer.
Proof. intros [i a] [j b]; unfold Index.nearer; cbn. lia. Qed.

Lemma nearer_strictly p q :
  Index.nearer p q → p.1 ≠ q.1 → strictly_nearer p q.
Proof. unfold Index.nearer, strictly_nearer. lia. Qed.

Lemma StronglySorted_lookup_lt {A} (R : relation A) l i j a b :
  StronglySorted R l → i < j → l !! i = Some a → l !! j = Some b → R a b.
Proof.
  intros Hl Hij Ha Hb. rewrite <- (take_drop j l) in Hl.
  apply (StronglySorted_app_1_elem_of _ _ _ a b) in Hl; [done| |].
  - apply elem_of_take. eauto.
  - apply list_elem_of_lookup. exists 0. by rewrite lookup_drop, Nat.add_0_r.
Qed.

Lemma scan_positions ix query :
  (Index.scan ix query).*1 = seq 0 (Index.ntotal ix).
Proof.
  unfold Index.scan, Index.ntotal. rewrite fmap_imap.
  rewrite (imap_ext _ (λ i _, i)) by done.
  by rewrite (imap_seq_0 _ id), list_fmap_id.
Qed.

Lemma elem_of_scan ix query p dist :
  (p, dist) ∈ Index.scan ix query ↔
  ∃ x, Index.xb ix !! p = Some x ∧ dist = Index.l2sqr query x.
Proof.
  unfold Index.scan. rewrite elem_of_lookup_imap. split.
  - intros (i & x & [= -> ->] & Hx). eauto.
  - intros (x & Hx & ->). eauto.
Qed.

(** What the index returns for one query: as many hits as asked for, or
    all of them; each a stored position with its distance; in strictly
    ascending order of (distance, position); and nothing left out comes
    before a hit. *)
Lemma knn_spec ix k query :
  let hits := Index.knn ix k query in
  length hits = k `min` Index.ntotal ix ∧
  (∀ a, a ∈ hits →
        ∃ x, Index.xb ix !! a.1 = Some x ∧ a.2 = Index.l2sqr query x) ∧
  (∀ i j a b, i < j → hits !! i = Some a → hits !! j = Some b →
              strictly_nearer a b) ∧
  (∀ p x a, Index.xb ix !! p = Some x → a ∈ hits → p ∉ hits.*1 →
            strictly_nearer a (p, Index.l2sqr query x)).
Proof.
  unfold Index.knn.
  set (ranked := merge_sort Index.nearer (Index.scan ix query)).
  assert (StronglySorted Index.nearer ranked) as Hsorted
    by apply (StronglySorted_merge_sort _).
  assert (ranked ≡ₚ Index.scan ix query) as Hperm
    by apply merge_sort_Permutation.
  assert (NoDup ranked.*1) as Hnodup.
  { rewrite Hperm, scan_positions. apply NoDup_seq. }
  cbn. split; [|split; [|split]].
  - rewrite length_take, Hperm. unfold Index.scan, Index.ntotal.
    by rewrite length_imap.
  - intros [p dist] Ha. apply elem_of_scan. rewrite <- Hperm.
    by apply (subseteq_take k).
  - intros i j a b Hij Ha Hb.
    apply lookup_take_Some in Ha as [Ha _], Hb as [Hb _].
    apply nearer_strictly; [by eapply StronglySorted_lookup_lt|].
    intros Heq. assert (i = j); [|lia].
    apply (NoDup_lookup _ _ _ a.1 Hnodup); rewrite list_lookup_fmap.
    + by rewrite Ha.
    + by rewrite Hb, Heq.
  - intros p x a Hx Ha Hp.
    assert ((p, Index.l2sqr query x) ∈ ranked) as Hin.
    { rewrite Hperm. apply elem_of_scan. eauto. }
    rewrite <- (take_drop k ranked) in Hin, Hsorted.
    apply elem_of_app in Hin as [Hin|Hin].
    { destruct Hp. by apply (list_elem_of_fmap_2 fst) in Hin. }
    apply nearer_strictly.
    + by apply (StronglySorted_app_1_elem_of _ _ _ _ _ Hsorted).
    + cbn. intros <-. destruct Hp. by apply list_elem_of_fmap_2.
Qed.

(** The loop of [search] goes through when every hit is a position of
    both lists; the results then report the hits, in order. *)
Lemma format_ok docs metas hits : ∀ i,
  Forall (λ a, a.1 < length docs ∧ a.1 < length metas) hits →
  ∃ rs, format docs metas i hits = Ok rs ∧
        hit <$> rs = hits ∧
        ∀ j r, rs !! j = Some r →
               r_rank r = i + j + 1 ∧
               docs !! r_document_idx r = Some (r_text r) ∧
               metas !! r_document_idx r = Some (r_metadata r).
Proof.
  induction hits as [|[idx distance] rest IH]; intros i Hall.
  { exists []. by repeat split. }
  apply Forall_cons in Hall as [[Hd Hm] Hall]. cbn in Hd, Hm.
  destruct (lookup_lt_is_Some_2 docs idx Hd) as [text Htext].
  destruct (lookup_lt_is_Some_2 metas idx Hm) as [meta Hmeta].
  destruct (IH (S i) Hall) as (rs & Hrs & Hhits & Hfields).
  cbn. rewrite Htext, Hmeta, Hrs. eexists. split; [done|]. split.
  { cbn. unfold hit at 1. cbn. by rewrite Hhits. }
  intros [|j] r Hr; cbn in Hr.
  - injection Hr as <-. cbn. repeat split; [lia|done..].
  - destruct (Hfields j r Hr) as (? & ? & ?). repeat split; [lia|done..].
Qed.

(** A search of an aligned database that holds documents, with an
    embedder that answers the query: the results report the hits of the
    index, in order, with the text and the metadata of each position. *)
Lemma search_hits query k s ix v :
  aligned (self s) → index (self s) = Some ix → documents (self s) ≠ [] →
  model (self s) [query] = Some (mk_ndarray (Index.d ix) [v]) →
  ∃ rs s', search query k s = (Ok rs, s') ∧
    hit <$> rs = Index.knn ix (k `min` total_count (self s)) v ∧
    ∀ j r, rs !! j = Some r →
      r_rank r = j + 1 ∧
      documents (self s) !! r_document_idx r = Some (r_text r) ∧
      deref (heap s) <$> metadata (self s) !! r_document_idx r
        = Some (r_metadata r).
Proof.
  intros [Hcount Hmetas] Hix Hdocs Hmodel.
  rewrite search_unfold. unfold search_outcome, index_count, total_count in *.
  rewrite Hix, Hmodel in *. cbn in Hcount.
  destruct (documents (self s)) as [|doc docs] eqn:Hdocs'; [done|].
  unfold Index.search. cbn [shape1 rows]. rewrite decide_True by done.
  destruct (Index.xb ix) as [|x xs] eqn:Hxb.
  { unfold Index.ntotal in Hcount. by rewrite Hxb in Hcount. }
  cbn [fmap list_fmap].
  set (hits := Index.knn ix _ v).
  destruct (format_ok (doc :: docs) (deref (heap s) <$> metadata (self s))
              hits 0) as (rs & Hrs & Hhits & Hfields).
  { apply Forall_forall. intros a Ha.
    destruct (knn_spec ix (k `min` length (doc :: docs)) v) as (_ & Hstored & _).
    destruct (Hstored a Ha) as (y & Hy & _).
    apply lookup_lt_Some in Hy. unfold Index.ntotal in Hcount.
    rewrite length_fmap. lia. }
  exists rs. eexists. rewrite Hrs. split; [done|]. split; [done|].
  intros j r Hr. destruct (Hfields j r Hr) as (? & ? & Hm).
  by rewrite list_lookup_fmap in Hm.
Qed.

(** C6, as amended.  On a database that holds no document, [search]
    returns the empty list and leaves the state as it is, the embedder
    included.  On an aligned database, with an embedder that answers the
    query by one vector of the index's width, a search for more results
    than there are documents returns normally, with exactly as many
    results as documents. *)
Theorem search_clamps query k s :
  (documents (self s) = [] → search query k s = (Ok [], s)) ∧
  (aligned (self s) → answers (self s) query → total_count (self s) < k →
   ∃ rs s', search query k s = (Ok rs, s') ∧ length rs = total_count (self s)).
Proof.
  split.
  { intros Hdocs. rewrite search_unfold. unfold search_outcome.
    rewrite Hdocs. by destruct (index (self s)). }
  intros Haligned Hanswers Hk.
  destruct (documents (self s)) as [|doc docs] eqn:Hdocs.
  { exists [], s. rewrite search_unfold. unfold search_outcome, total_count.
    rewrite Hdocs. by destruct (index (self s)). }
  destruct (index (self s)) as [ix|] eqn:Hix.
  2:{ destruct Haligned as [Hcount _]. unfold index_count in Hcount.
      by rewrite Hix, Hdocs in Hcount. }
  destruct (Hanswers ix Hix) as [v Hv].
  destruct (search_hits query k s ix v) as (rs & s' & Hrun & Hhits & _);
    [done|done|by rewrite Hdocs|done|].
  exists rs, s'. split; [done|].
  rewrite <- (length_fmap hit), Hhits.
  destruct (knn_spec ix (k `min` total_count (self s)) v) as (-> & _).
  destruct Haligned as [Hcount _]. unfold index_count in Hcount.
  rewrite Hix in Hcount. cbn in Hcount. unfold total_count in *. lia.
Qed.

Lemma search_clamps_witness :
  let s := (add_documents ["a"; "bb"; "cccc"] None toy_state).2 in
  (search "q" 7 toy_state = (Ok [], toy_state)) ∧
  (∃ rs s', search "bbb" 7 s = (Ok rs, s') ∧ length rs = 3).
Proof.
  intros s. split.
  - by apply (search_clamps "q" 7 toy_state).
  - apply (search_clamps "bbb" 7 s).
    + by split.
    + intros ix Hix. vm_compute in Hix. injection Hix as <-.
      by exists [3%Z; 1%Z].
    + change (3 < 7). lia.
Defined.

(** C6, as stated, fails at three databases, each searched for five
    results while it holds one document.  The first was loaded from a
    folder whose index holds two vectors: the nearest is the second, and
    there is no second document.  The second is what a call of
    [add_documents] that failed on the length of its metadata has left:
    there is no metadata for the hit.  The third is aligned, and the
    embedder answers the query by a vector wider than the index. *)
Lemma search_clamps_counterexample :
  (let loaded := load (λ _, toy_model) "db"
                   (on_disk "db" folder_two_vectors_one_document) in
   ∃ db, loaded.1 = Ok db ∧
     total_count db < 5 ∧
     (search "bb" 5 (with_self (λ _, db) loaded.2)).1 = Raise NotFound) ∧
  (let s := (add_documents ["a"] (Some []) toy_state).2 in
   total_count (self s) < 5 ∧ (search "a" 5 s).1 = Raise NotFound) ∧
  (let s := (add_documents ["a"] None toy_state).2 in
   aligned (self s) ∧ total_count (self s) < 5 ∧
   (search "wide" 5 s).1 = Raise DimensionMismatch).
Proof.
  split; [|split].
  - exists (mkDB "toy" toy_model (Some (Index.mk 2 [[1; 1]; [2; 1]]%Z)) ["a"] [0]).
    split; [by vm_compute|]. split; [cbn; lia|by vm_compute].
  - split; [vm_compute; lia|by vm_compute].
  - split; [by split|]. split; [vm_compute; lia|by vm_compute].
Qed.

(** ** Saving and loading back *)

Lemma deref_prefix h0 h' l :
  h0 `prefix_of` h' → l < length h0 → deref h' l = deref h0 l.
Proof. intros [k ->] Hl. unfold deref. by rewrite lookup_app_l. Qed.

Lemma deref_new h0 content : deref (h0 ++ [content]) (length h0) = content.
Proof. unfold deref. by rewrite list_lookup_middle. Qed.

Lemma pickle_load_memo created j rest h :
  pickle_load created (PMemo j :: rest) h =
    match created !! j, pickle_load created rest h with
    | Some l, Some (ls, h') => Some (l :: ls, h')
    | _, _ => None
    end.
Proof.
  cbn [pickle_load]. destruct (created !! j); [|done]. cbn.
  by destruct (pickle_load created rest h) as [[]|].
Qed.

Lemma pickle_load_dict created content rest h :
  pickle_load created (PDict content :: rest) h =
    match pickle_load (created ++ [length h]) rest (h ++ [content]) with
    | Some (ls, h') => Some (length h :: ls, h')
    | None => None
    end.
Proof.
  cbn [pickle_load].
  by destruct (pickle_load (created ++ [length h]) rest (h ++ [content])) as [[]|].
Qed.

(** Unpickling what was pickled builds dicts with the contents of the
    pickled ones, entry by entry.  [memo] and [created] are the dicts met
    so far on either side. *)
Lemma pickle_round_trip h metas : ∀ memo created h0,
  length memo = length created →
  Forall (λ l', l' < length h0) created →
  (∀ j l l', memo !! j = Some l → created !! j = Some l' →
             deref h0 l' = deref h l) →
  ∃ metas' h', pickle_load created (pickle_dump h memo metas) h0
                 = Some (metas', h') ∧
               deref h' <$> metas' = deref h <$> metas ∧
               h0 `prefix_of` h'.
Proof.
  induction metas as [|l rest IH]; intros memo created h0 Hlen Hbound Hsame.
  { by exists [], h0. }
  cbn. destruct (list_find (λ l', l' = l) memo) as [[j x]|] eqn:Hfind.
  - apply list_find_Some in Hfind as (Hj & -> & _).
    destruct (lookup_lt_is_Some_2 created j) as [l' Hl'].
    { rewrite <- Hlen. by eapply lookup_lt_Some. }
    destruct (IH memo created h0 Hlen Hbound Hsame) as (ls & h' & Hload & Hls & Hpre).
    rewrite pickle_load_memo, Hl', Hload.
    exists (l' :: ls), h'. split; [done|]. split; [|done].
    cbn. rewrite Hls. f_equal. rewrite <- (Hsame j l l' Hj Hl').
    apply deref_prefix; [done|].
    rewrite Forall_forall in Hbound. apply Hbound.
    apply list_elem_of_lookup. eauto.
  - destruct (IH (memo ++ [l]) (created ++ [length h0]) (h0 ++ [deref h l]))
      as (ls & h' & Hload & Hls & Hpre).
    + by rewrite !length_app, Hlen.
    + rewrite length_app. cbn. apply Forall_app. split.
      * eapply Forall_impl; [done|]. cbn. lia.
      * apply Forall_singleton. lia.
    + intros i a b Ha Hb.
      destruct (decide (i < length memo)) as [Hi|Hi].
      * rewrite lookup_app_l in Ha by done.
        rewrite lookup_app_l in Hb by lia.
        rewrite <- (Hsame i a b Ha Hb). apply deref_prefix.
        { by apply prefix_app_r. }
        rewrite Forall_forall in Hbound. apply Hbound.
        apply list_elem_of_lookup. eauto.
      * assert (i = length memo) as ->.
        { apply lookup_lt_Some in Ha. rewrite length_app in Ha. cbn in Ha. lia. }
        rewrite list_lookup_middle in Ha by done.
        rewrite list_lookup_middle in Hb by done.
        injection Ha as <-. injection Hb as <-. apply deref_new.
    + rewrite pickle_load_dict, Hload.
      exists (length h0 :: ls), h'. split; [done|]. split.
      * cbn. rewrite Hls. f_equal.
        rewrite (deref_prefix (h0 ++ [deref h l]) h') by
          (try done; rewrite length_app; cbn; lia).
        apply deref_new.
      * etrans; [|done]. by apply prefix_app_r.
Qed.

(** The results of a search are a function of the model, the index, the
    documents and the contents of the metadata dicts; the index does not
    count when there is no document. *)
Lemma search_depends query k s1 s2 :
  model (self s1) = model (self s2) →
  documents (self s1) = documents (self s2) →
  deref (heap s1) <$> metadata (self s1) = deref (heap s2) <$> metadata (self s2) →
  index (self s1) = index (self s2) ∨ documents (self s2) = [] →
  (search query k s1).1 = (search query k s2).1.
Proof.
  intros Hmodel Hdocs Hmetas Hix. rewrite !search_unfold.
  unfold search_outcome. rewrite Hmodel, Hdocs, Hmetas.
  destruct Hix as [->| ->].
  - destruct (index (self s2)); [|done]. destruct (documents (self s2)); [done|].
    destruct (model (self s2) _); [|done].
    by destruct (Index.search _ _ _) as [[|]|].
  - by destruct (index (self s1)), (index (self s2)).
Qed.

(** C3, as amended.  Take a database that has an index, or else a
    location whose index file is absent, or readable while the database
    holds no document.  Saving it there and loading the location back
    returns a database with the same total count, the same texts, the same
    metadata contents document by document, and, whatever embedder is put
    in both, the same search results for every query and every count. *)
Theorem save_load_round_trip from_pretrained directory s :
  (index (self s) = None →
     disk s !! directory ≫= index_faiss = None ∨
     (documents (self s) = [] ∧
      ∃ ix, disk s !! directory ≫= index_faiss = Some (Valid ix))) →
  ∃ db' s',
    load from_pretrained directory (save directory s).2 = (Ok db', s') ∧
    total_count db' = total_count (self s) ∧
    documents db' = documents (self s) ∧
    deref (heap s') <$> metadata db' = deref (heap s) <$> metadata (self s) ∧
    ∀ E query k,
      (search query k (with_self (λ _, set_model E db') s')).1 =
      (search query k (with_self (set_model E) s)).1.
Proof.
  intros Hstale. rewrite save_run. cbn [snd].
  destruct s as [[name E0 ix docs metas] h dsk calls]. cbn in Hstale.
  set (old := default empty_folder (dsk !! directory)).
  assert (dsk !! directory ≫= index_faiss = index_faiss old) as Hold.
  { unfold old. by destruct (dsk !! directory). }
  rewrite Hold in Hstale. clear Hold.
  pose proof (load_run from_pretrained directory
    (with_disk (λ dsk0, <[directory :=
       saved_folder (mkDB name E0 ix docs metas) h
         (default empty_folder (dsk0 !! directory))]> dsk0)
       (mkState (mkDB name E0 ix docs metas) h dsk calls))) as Hrun.
  cbn in Hrun. rewrite lookup_insert_eq in Hrun. cbn in Hrun.
  fold old in Hrun. unfold load_result, saved_folder in Hrun. cbn in Hrun.
  destruct (pickle_round_trip h metas [] [] h)
    as (metas' & h' & Hload & Hmetas & _); [done|done|done|].
  rewrite Hload in Hrun.
  assert (∀ ix' E query k,
    ix' = ix →
    (search query k
       (with_self (λ _, set_model E
          (mkDB (strip (universal_newlines name))
             (from_pretrained (strip (universal_newlines name)))
             ix' docs metas'))
          (mkState (mkDB name E0 ix docs metas) h'
             (<[directory := saved_folder (mkDB name E0 ix docs metas) h old]> dsk)
             calls))).1 =
    (search query k
       (with_self (set_model E)
          (mkState (mkDB name E0 ix docs metas) h dsk calls))).1) as Hsearch.
  { intros ix' E query k ->. apply search_depends; cbn; try done. by left. }
  destruct ix as [ix|]; cbn in Hrun.
  - eexists _, _. split; [exact Hrun|]. repeat split; try done.
    intros E query k. by apply (Hsearch (Some ix)).
  - destruct (Hstale eq_refl) as [Hnone|[-> [ix Hix]]].
    + rewrite Hnone in Hrun.
      eexists _, _. split; [exact Hrun|]. by repeat split.
    + rewrite Hix in Hrun.
      eexists _, _. split; [exact Hrun|]. by repeat split.
Qed.

Lemma save_load_round_trip_witness :
  let s := (add_documents ["a"; "bb"; "cccc"] (Some [0; 1; 0])
              (run_calls [NewDict {["source" := VStr "proverb"]};
                          NewDict {["source" := VStr "Lao Tzu"]}] toy_state)).2 in
  ∃ db' s',
    load (λ _, toy_model) "db" (save "db" s).2 = (Ok db', s') ∧
    total_count db' = 3 ∧
    documents db' = ["a"; "bb"; "cccc"] ∧
    deref (heap s') <$> metadata db' = deref (heap s) <$> metadata (self s) ∧
    ∀ E query k,
      (search query k (with_self (λ _, set_model E db') s')).1 =
      (search query k (with_self (set_model E) s)).1.
Proof.
  intros s. apply (save_load_round_trip (λ _, toy_model) "db" s).
  intros Hix. discriminate Hix.
Defined.

(** C3, as stated, fails where the database has no index to write and
    the location already holds an index file.  If that file cannot be
    read, loading what the empty database saved fails, while the database
    itself answers every search with the empty list.  If it can be read
    and the database holds a document (it was loaded from a folder without
    index file), the database answers with the empty list and the one
    loaded back with a result. *)
Lemma save_load_counterexample :
  (let s := on_disk "db" folder_unreadable_index in
   total_count (self s) = 0 ∧
   (search "q" 1 s).1 = Ok [] ∧
   (load (λ _, toy_model) "db" (save "db" s).2).1 = Raise CorruptState) ∧
  (let s0 := with_disk (<["dst" := folder_two_vectors_one_document]>)
               (on_disk "src" folder_without_index) in
   let C := mkDB "toy" toy_model None ["a"] [0] in
   (load (λ _, toy_model) "src" s0).1 = Ok C ∧
   let s := with_self (λ _, C) (load (λ _, toy_model) "src" s0).2 in
   let back := load (λ _, toy_model) "dst" (save "dst" s).2 in
   let db' := mkDB "toy" toy_model (Some (Index.mk 2 [[1; 1]; [2; 1]]%Z))
                ["a"] [1] in
   (search "a" 1 s).1 = Ok [] ∧
   back.1 = Ok db' ∧
   (search "a" 1 (with_self (λ _, db') back.2)).1
     = Ok [mkResult 1 0 0 "a" ∅]).
Proof.
  split; [by repeat split|]. repeat split; vm_compute; reflexivity.
Qed.

(** * More properties of the class *)

(** ** What the methods never do *)

Lemma length_stamped start_idx metas : ∀ i h,
  length (stamped start_idx i metas h) = length h.
Proof.
  induction metas as [|meta rest IH]; intros i h; [done|].
  cbn. by rewrite IH, length_alter.
Qed.

Lemma add_documents_only_appends docs metas s :
  let s' := (add_documents docs metas s).2 in
  documents (self s) `prefix_of` documents (self s') ∧
  metadata (self s) `prefix_of` metadata (self s') ∧
  index_vectors (self s) `prefix_of` index_vectors (self s') ∧
  length (heap s) ≤ length (heap s').
Proof.
  destruct docs as [|doc docs]; [done|].
  rewrite add_documents_unfold. unfold add_documents_outcome, index_vectors.
  destruct s as [[name E ix txts ms] h dsk calls].
  cbn -[stamped seq replicate]. destruct (E _) as [e|]; [|done].
  unfold Index.add. destruct (decide _).
  2:{ cbn. by destruct ix. }
  assert (from_option Index.xb [] ix `prefix_of`
          Index.xb (default (Index.create (shape1 e)) ix) ++ rows e) as Hxb.
  { destruct ix; cbn; [by apply prefix_app_r|apply prefix_nil]. }
  destruct metas as [metas|]; cbn -[stamped seq replicate];
    destruct (decide _); cbn -[stamped seq replicate];
    rewrite ?length_stamped, ?length_app;
    repeat split; try done; try (by apply prefix_app_r); lia.
Qed.

(** X1.  No sequence of calls ever removes or reorders what is stored:
    the document list, the metadata list and the vectors of the index
    before the calls are the beginning of what they are after, and no
    dict leaves the heap. *)
Theorem calls_only_append cs : ∀ s,
  documents (self s) `prefix_of` documents (self (run_calls cs s)) ∧
  metadata (self s) `prefix_of` metadata (self (run_calls cs s)) ∧
  index_vectors (self s) `prefix_of` index_vectors (self (run_calls cs s)) ∧
  length (heap s) ≤ length (heap (run_calls cs s)).
Proof.
  induction cs as [|c cs IH]; intros s; [done|].
  rewrite run_calls_cons.
  destruct (IH (run_call c s)) as (Hd & Hm & Hv & Hh).
  assert (documents (self s) `prefix_of` documents (self (run_call c s)) ∧
          metadata (self s) `prefix_of` metadata (self (run_call c s)) ∧
          index_vectors (self s) `prefix_of` index_vectors (self (run_call c s)) ∧
          length (heap s) ≤ length (heap (run_call c s)))
    as (Hd' & Hm' & Hv' & Hh').
  { destruct c as [docs metas|query k|directory|content]; cbn.
    - apply add_documents_only_appends.
    - destruct (search_frame query k s) as [calls ->]. by destruct s.
    - rewrite save_run. by destruct s.
    - destruct s. cbn. rewrite length_app. repeat split; try done. lia. }
  repeat split; [by etrans..|lia].
Qed.

(** X2.  A call of [add_documents] that returns normally stores the texts
    of the batch in order, from the position that was the total count on;
    what was stored stays where it was; and the embedder has been called
    once, on the whole batch (not at all for an empty batch). *)
Theorem add_documents_lookup docs metas s s' :
  add_documents docs metas s = (Ok (), s') →
  (∀ j, j < total_count (self s) →
        documents (self s') !! j = documents (self s) !! j) ∧
  (∀ i, documents (self s') !! (total_count (self s) + i) = docs !! i) ∧
  embed_calls s' = embed_calls s ++ match docs with [] => [] | _ => [docs] end.
Proof.
  destruct docs as [|doc docs].
  { intros [= <-]. unfold total_count. repeat split.
    - intros i. apply lookup_ge_None_2. lia.
    - by rewrite app_nil_r. }
  rewrite add_documents_unfold. unfold add_documents_outcome, total_count.
  destruct s as [[name E ix txts ms] h dsk calls].
  cbn -[stamped seq replicate]. destruct (E _) as [e|]; [|done].
  destruct (Index.add _ _) as [ix'|]; [|done].
  destruct metas as [metas|]; cbn -[stamped seq replicate];
    (destruct (decide _); [|done]); intros [= <-]; cbn -[stamped seq replicate];
    (repeat split; [intros j Hj; by apply lookup_app_l
                   |intros i; by rewrite lookup_app_r, Nat.add_sub' by lia]).
Qed.

Lemma add_documents_lookup_witness :
  let s := (add_documents ["a"; "bb"] None toy_state).2 in
  let s' := (add_documents ["ccc"; "d"] None s).2 in
  (∀ j, j < 2 → documents (self s') !! j = documents (self s) !! j) ∧
  (∀ i, documents (self s') !! (2 + i) = ["ccc"; "d"] !! i) ∧
  embed_calls s' = embed_calls s ++ [["ccc"; "d"]].
Proof.
  intros s s'. apply (add_documents_lookup ["ccc"; "d"] None s s'). reflexivity.
Defined.



(** ** Alignment after a call that may raise *)

Lemma add_documents_aligned docs metas s :
  (∀ e, model (self s) docs = Some e → length (rows e) = length docs) →
  (∀ ms, metas = Some ms → docs = [] ∨ length ms = length docs) →
  aligned (self s) → aligned (self (add_documents docs metas s).2).
Proof.
  intros Hrows Hsized Haligned.
  destruct docs as [|doc docs]; [done|].
  destruct (add_documents (doc :: docs) metas s) as [[[]|e] s'] eqn:Hrun.
  { eapply add_documents_keeps_aligned; [by apply Hrows|done|done]. }
  cbn. revert Hrun. rewrite add_documents_unfold.
  unfold add_documents_outcome.
  destruct s as [[name E ix txts ms] h dsk calls]. cbn -[stamped seq replicate] in *.
  destruct (E _) as [emb|]; [|by intros [= _ <-]].
  unfold Index.add. destruct (decide _).
  2:{ intros [= _ <-]. cbn. destruct ix; [done|]. cbn in *. congruence. }
  destruct metas as [metas|]; cbn -[stamped seq replicate].
  - destruct (Hsized metas eq_refl) as [|Hlen]; [done|]. by rewrite decide_True.
  - by rewrite length_seq, decide_True.
Qed.

(** X4.  With an embedder that gives one row for each text, a database
    that is aligned is aligned after a call of [add_documents], whether
    the call returns or raises, when the batch is a list other than the
    database's own document list and the call passes no metadata, or a
    list of dicts of the length of the batch, or the batch is empty. *)
Theorem add_documents_stays_aligned docs given s :
  (∀ e, model (self s) docs = Some e → length (rows e) = length docs) →
  (∀ p, given = Some p →
        docs = [] ∨ length (passed_list (metadata (self s)) p) = length docs) →
  aligned (self s) →
  aligned (self (add_documents_passed (Caller docs) (Dicts <$> given) s).2).
Proof.
  intros Hrows Hsized Haligned. rewrite add_documents_passed_caller.
  apply add_documents_aligned; [done| |done].
  intros ms Hms. destruct given as [p|]; [|done].
  injection Hms as <-. by apply Hsized.
Qed.

Lemma toy_model_rows texts e :
  toy_model texts = Some e → length (rows e) = length texts.
Proof.
  unfold toy_model. destruct texts as [|t texts].
  - intros [= <-]. reflexivity.
  - destruct (decide (t = "wide")) as [->|Hne].
    + intros [= <-]. cbn. by rewrite length_fmap.
    + assert (∀ A (x y : A), match t with "wide" => x | _ => y end = y) as Hy.
      { intros A x y.
        repeat (destruct t as [|[[] [] [] [] [] [] [] []] t]; try done). }
      rewrite Hy. intros [= <-]. cbn. by rewrite length_fmap.
Qed.

Lemma add_documents_stays_aligned_witness :
  let s := run_calls [AddDocuments ["a"; "bb"] None; NewDict ∅] toy_state in
  (add_documents_passed (Caller ["wide"]) (Some (Dicts (Caller [2]))) s).1
    = Raise DimensionMismatch ∧
  aligned (self (add_documents_passed (Caller ["wide"])
                   (Some (Dicts (Caller [2]))) s).2) ∧
  (add_documents_passed (Caller ["ccc"; "d"]) (Some (Dicts Own)) s).1 = Ok () ∧
  aligned (self (add_documents_passed (Caller ["ccc"; "d"])
                   (Some (Dicts Own)) s).2).
Proof.
  intros s. split; [by vm_compute|]. split; [|split; [by vm_compute|]].
  - apply (add_documents_stays_aligned ["wide"] (Some (Caller [2])) s).
    + apply toy_model_rows.
    + intros p [= <-]. by right.
    + by split.
  - apply (add_documents_stays_aligned ["ccc"; "d"] (Some Own) s).
    + apply toy_model_rows.
    + intros p [= <-]. by right.
    + by split.
Defined.

(** ** The stamp of a document *)

(** X5.  On a database with as many dicts as documents whose stamps
    agree, a call of [add_documents] that returns normally leaves stamps
    that agree, when the caller passes no metadata, or passes dicts that
    are on the heap, all different, and none of them stored already. *)
Theorem add_documents_keeps_stamps docs metas s s' :
  length (metadata (self s)) = length (documents (self s)) →
  stamps_agree s →
  (∀ ms, metas = Some ms →
         NoDup ms ∧
         Forall (λ l, l < length (heap s) ∧ l ∉ metadata (self s)) ms) →
  add_documents docs metas s = (Ok (), s') →
  stamps_agree s'.
Proof.
  intros Hmetas Hagree Hfresh.
  destruct metas as [ms|]; [|by apply add_documents_fresh_stamps].
  destruct (Hfresh ms eq_refl) as [Hnodup Hms]. clear Hfresh.
  destruct docs as [|doc docs]; [by intros [= <-]|].
  rewrite add_documents_unfold. unfold add_documents_outcome.
  destruct (model _ _) as [e|]; [|done].
  destruct (Index.add _ _) as [ix'|]; [|done].
  destruct (decide _) as [Hlen|]; [|done].
  destruct s as [[name E ix txts old] h dsk calls].
  unfold stamps_agree in *. cbn -[stamped] in *. intros [= <-]. cbn -[stamped].
  destruct (stamped_distinct (length txts) ms 0 h Hnodup)
    as (Hheap & Hstamps & Hothers).
  { eapply Forall_impl; [done|]. by intros l [? _]. }
  intros i l Hl. rewrite Hheap.
  apply lookup_app_Some in Hl as [Hl|[Hi Hl]].
  - destruct (Hagree i l Hl) as [Hlt Hstamp]. split; [done|].
    rewrite Hothers; [done|]. intros Hin.
    rewrite Forall_forall in Hms. destruct (Hms l Hin) as [_ Hnot].
    apply Hnot. apply list_elem_of_lookup. eauto.
  - split.
    + rewrite Forall_forall in Hms. apply Hms. apply list_elem_of_lookup. eauto.
    + rewrite (Hstamps _ _ Hl). do 3 f_equal. lia.
Qed.

Lemma add_documents_keeps_stamps_witness :
  let s := run_calls [NewDict {["source" := VStr "proverb"]}; NewDict ∅]
             (add_documents ["a"] None toy_state).2 in
  stamps_agree (add_documents ["bb"; "ccc"] (Some [1; 2]) s).2.
Proof.
  intros s.
  apply (add_documents_keeps_stamps ["bb"; "ccc"] (Some [1; 2]) s
           (add_documents ["bb"; "ccc"] (Some [1; 2]) s).2).
  - reflexivity.
  - intros i l Hl. destruct i as [|i]; [|done]. injection Hl as <-.
    split; [vm_compute; lia|reflexivity].
  - intros ms [= <-]. split.
    + apply NoDup_cons. split; [|apply NoDup_singleton].
      rewrite list_elem_of_singleton. lia.
    + repeat constructor; try (vm_compute; lia);
        change (metadata (self s)) with [0];
        rewrite list_elem_of_singleton; lia.
  - reflexivity.
Defined.

(** ** What a search returns *)

(** The loop of [search], read backwards: when it goes through, the
    results report the hits in order, each with the text and the metadata
    of its position. *)
Lemma format_inv docs metas hits : ∀ i rs,
  format docs metas i hits = Ok rs →
  hit <$> rs = hits ∧
  ∀ j r, rs !! j = Some r →
         r_rank r = i + j + 1 ∧
         docs !! r_document_idx r = Some (r_text r) ∧
         metas !! r_document_idx r = Some (r_metadata r).
Proof.
  induction hits as [|[idx distance] rest IH]; intros i rs.
  { intros [= <-]. by split. }
  cbn. destruct (docs !! idx) as [text|] eqn:Htext; [|done].
  destruct (metas !! idx) as [meta|] eqn:Hmeta; [|done].
  destruct (format docs metas (S i) rest) as [rs'|] eqn:Hrest; [|done].
  intros [= <-]. destruct (IH (S i) rs' Hrest) as [Hhits Hfields].
  split; [by rewrite fmap_cons, Hhits|].
  intros [|j] r Hr; cbn in Hr.
  - injection Hr as <-. cbn. repeat split; [lia|done..].
  - destruct (Hfields j r Hr) as (? & ? & ?). repeat split; [lia|done..].
Qed.

(** What a search that returns has read: nothing for want of an index or
    of documents, else the hits of the index for the first row the
    embedder gave. *)
Lemma search_returns query k s rs s' :
  search query k s = (Ok rs, s') →
  rs = [] ∨
  ∃ ix e row rows',
    index (self s) = Some ix ∧ model (self s) [query] = Some e ∧
    rows e = row :: rows' ∧
    format (documents (self s)) (deref (heap s) <$> metadata (self s)) 0
      (Index.knn ix (k `min` total_count (self s)) row) = Ok rs.
Proof.
  rewrite search_unfold. unfold search_outcome, total_count.
  destruct (index (self s)) as [ix|]; [|intros [= <-]; by left].
  destruct (documents (self s)) as [|doc docs] eqn:Hdocs; [intros [= <-]; by left|].
  destruct (model (self s) [query]) as [e|]; [|done].
  unfold Index.search. destruct (decide _); [|done].
  destruct (Index.xb ix); [done|].
  destruct (rows e) as [|row rows'] eqn:Hrows; [done|].
  cbn. intros [= Hrs _]. right. by exists ix, e, row, rows'.
Qed.

(** X6.  Whenever [search] returns, there are at most [k] results and at
    most as many as documents; the result at place [j] has rank [j + 1];
    and the text and the metadata of each result are those stored at the
    position it names. *)
Theorem search_results_fields query k s rs s' :
  search query k s = (Ok rs, s') →
  length rs ≤ k ∧
  length rs ≤ total_count (self s) ∧
  ∀ j r, rs !! j = Some r →
    r_rank r = j + 1 ∧
    documents (self s) !! r_document_idx r = Some (r_text r) ∧
    deref (heap s) <$> metadata (self s) !! r_document_idx r
      = Some (r_metadata r).
Proof.
  intros Hrun.
  destruct (search_returns query k s rs s' Hrun)
    as [->|(ix & e & row & rows' & Hix & He & Hrows & Hformat)].
  { split; [cbn; lia|]. split; [cbn; lia|]. by intros j r Hr. }
  apply format_inv in Hformat as [Hhits Hfields].
  destruct (knn_spec ix (k `min` total_count (self s)) row) as [Hlen _].
  rewrite <- Hhits, length_fmap in Hlen.
  split; [lia|]. split; [lia|]. intros j r Hr.
  destruct (Hfields j r Hr) as (? & ? & Hm).
  by rewrite list_lookup_fmap in Hm.
Qed.

Lemma search_results_fields_witness :
  let s := (add_documents ["a"; "bb"; "cccc"] None toy_state).2 in
  ∃ rs, (search "bbb" 2 s).1 = Ok rs ∧ length rs ≤ 2 ∧ length rs ≤ 3.
Proof.
  intros s. exists (match (search "bbb" 2 s).1 with Ok rs => rs | _ => [] end).
  split; [reflexivity|].
  destruct (search_results_fields "bbb" 2 s
              (match (search "bbb" 2 s).1 with Ok rs => rs | _ => [] end)
              (search "bbb" 2 s).2) as (H1 & H2 & _); [reflexivity|].
  split; [exact H1|exact H2].
Defined.

(** X8.  [search] writes nothing: the database object, the dicts and the
    disk are as they were, whatever the outcome.  The embedder is called
    once, on the query alone, when the database has an index and holds
    documents, and not at all otherwise. *)
Theorem search_reads_only query k s :
  let s' := (search query k s).2 in
  self s' = self s ∧ heap s' = heap s ∧ disk s' = disk s ∧
  embed_calls s' = embed_calls s ++ search_embeds (self s) query.
Proof.
  rewrite search_unfold. unfold search_outcome, search_embeds.
  destruct s as [db h dsk calls]. cbn.
  destruct (index db); [|by rewrite app_nil_r].
  destruct (documents db); [by rewrite app_nil_r|].
  destruct (model db _); [|done].
  by destruct (Index.search _ _ _) as [[|]|].
Qed.

(** ** Saving and loading *)

(** X9.  When [save] returns, the database object and the dicts are as
    they were, and the folder holds the document list, the metadata list
    and the model name of the database; it holds the index of the database
    if it has one, and whatever index file was there before if it has
    none. *)
Theorem save_writes_its_folder directory s s' :
  save directory s = (Ok (), s') →
  self s' = self s ∧ heap s' = heap s ∧ embed_calls s' = embed_calls s ∧
  ∃ dir,
    disk s' !! directory = Some dir ∧
    documents_pkl dir = Some (Valid (documents (self s))) ∧
    metadata_pkl dir = Some (Valid (pickle_dump (heap s) [] (metadata (self s)))) ∧
    model_name_txt dir = Some (Valid (model_name (self s))) ∧
    index_faiss dir =
      match index (self s) with
      | Some ix => Some (Valid ix)
      | None => disk s !! directory ≫= index_faiss
      end.
Proof.
  rewrite save_run. intros [= <-].
  destruct s as [db h dsk calls]. unfold with_disk. cbn.
  do 3 (split; [done|]).
  exists (saved_folder db h (default empty_folder (dsk !! directory))).
  split; [by rewrite lookup_insert_eq|]. do 3 (split; [done|]).
  cbn. destruct (index db); [done|]. by destruct (dsk !! directory).
Qed.

Lemma save_writes_its_folder_witness :
  let s := on_disk "db" folder_two_vectors_one_document in
  let s' := (save "db" s).2 in
  self s' = self s ∧ heap s' = heap s ∧ embed_calls s' = embed_calls s ∧
  ∃ dir,
    disk s' !! "db" = Some dir ∧
    documents_pkl dir = Some (Valid []) ∧
    metadata_pkl dir = Some (Valid []) ∧
    model_name_txt dir = Some (Valid "toy") ∧
    index_faiss dir = Some (Valid (Index.mk 2 [[1; 1]; [2; 1]]%Z)).
Proof.
  intros s s'.
  apply (save_writes_its_folder "db" s s'). reflexivity.
Defined.

(** X10.  Saving twice in a row to the same place is saving once. *)
Theorem save_twice directory s :
  (save directory (save directory s).2).2 = (save directory s).2.
Proof.
  rewrite !save_run. destruct s as [db h dsk calls]. unfold with_disk. cbn.
  rewrite lookup_insert_eq, insert_insert_eq. cbn. do 2 f_equal.
  unfold saved_folder. cbn. by destruct (index db).
Qed.

Lemma pickle_load_grows p : ∀ created h ls h',
  pickle_load created p h = Some (ls, h') →
  h `prefix_of` h' ∧ length ls = length p.
Proof.
  induction p as [|[content|j] rest IH]; intros created h ls h'.
  - by intros [= <- <-].
  - rewrite pickle_load_dict.
    destruct (pickle_load _ rest _) as [[ls' h'']|] eqn:Hrest; [|done].
    intros [= <- <-]. destruct (IH _ _ _ _ Hrest) as [Hpre Hlen].
    split; [|by cbn; rewrite Hlen]. etrans; [|done]. by apply prefix_app_r.
  - rewrite pickle_load_memo. destruct (created !! j); [|done].
    destruct (pickle_load _ rest _) as [[ls' h'']|] eqn:Hrest; [|done].
    intros [= <- <-]. destruct (IH _ _ _ _ Hrest) as [Hpre Hlen].
    split; [done|by cbn; rewrite Hlen].
Qed.

(** X11.  [load] reads: whatever it finds and whether it returns or
    raises, the disk, the database object at hand and the record of the
    embedder's calls are as they were, and the dicts that were on the heap
    are still there, unchanged, before the ones it has built. *)
Theorem load_reads_only from_pretrained directory s :
  let s' := (load from_pretrained directory s).2 in
  disk s' = disk s ∧ self s' = self s ∧ embed_calls s' = embed_calls s ∧
  heap s `prefix_of` heap s'.
Proof.
  destruct s as [db0 h dsk calls].
  unfold load, read, unpickle_metadata, init. run_monad. cbn.
  destruct (dsk !! directory) as [[ix docs p name]|] eqn:Hdir; cbn; [|done].
  destruct name as [[name|]|]; cbn; rewrite ?Hdir; cbn; try done.
  destruct docs as [[docs|]|]; cbn; rewrite ?Hdir; cbn; try done.
  destruct p as [[p|]|]; cbn; rewrite ?Hdir; cbn; try done.
  destruct (pickle_load [] p h) as [[metas h']|] eqn:Hp; cbn;
    rewrite ?Hdir; cbn; [|done].
  apply pickle_load_grows in Hp as [Hpre _].
  by destruct ix as [[ix|]|].
Qed.

(** What [load] has read when it returns. *)
Lemma load_inv from_pretrained directory s db s' :
  load from_pretrained directory s = (Ok db, s') →
  ∃ dir name p,
    disk s !! directory = Some dir ∧
    model_name_txt dir = Some (Valid name) ∧
    model_name db = strip (universal_newlines name) ∧
    documents_pkl dir = Some (Valid (documents db)) ∧
    metadata_pkl dir = Some (Valid p) ∧
    pickle_load [] p (heap s) = Some (metadata db, heap s') ∧
    index_faiss dir = Valid <$> index db.
Proof.
  intros Hload. pose proof (load_run from_pretrained directory s) as Hrun.
  destruct (disk s !! directory) as [dir|] eqn:Hdir; cbn in Hrun.
  2:{ destruct Hrun as [s'' Hrun]. by rewrite Hrun in Hload. }
  unfold load_result in Hrun. destruct dir as [ix docs p name]. cbn in Hrun.
  destruct name as [[name|]|];
    try (destruct Hrun as [s'' Hrun]; by rewrite Hrun in Hload).
  destruct docs as [[docs|]|];
    try (destruct Hrun as [s'' Hrun]; by rewrite Hrun in Hload).
  destruct p as [[p|]|];
    try (destruct Hrun as [s'' Hrun]; by rewrite Hrun in Hload).
  destruct (pickle_load [] p (heap s)) as [[metas h']|] eqn:Hp;
    [|destruct Hrun as [s'' Hrun]; by rewrite Hrun in Hload].
  destruct ix as [[ix|]|];
    [|destruct Hrun as [s'' Hrun]; by rewrite Hrun in Hload|];
    rewrite Hrun in Hload; injection Hload as <- <-;
    eexists _, name, p; by repeat split.
Qed.

(** X12.  When [save] returns on a database that has an index, and
    loading the place back returns a database, that database has the
    index, the texts and as many metadata dicts as the saved one, and it
    is aligned exactly when the saved one was. *)
Theorem save_load_keeps_index from_pretrained directory s ix s1 db' s' :
  index (self s) = Some ix →
  save directory s = (Ok (), s1) →
  load from_pretrained directory s1 = (Ok db', s') →
  index db' = Some ix ∧
  documents db' = documents (self s) ∧
  length (metadata db') = length (metadata (self s)) ∧
  (aligned db' ↔ aligned (self s)).
Proof.
  intros Hix Hsave Hload. rewrite save_run in Hsave. injection Hsave as <-.
  apply load_inv in Hload
    as (dir & name & p & Hdir & _ & _ & Hdocs & Hp & Hpl & Hixf).
  destruct s as [[name0 E0 ix0 docs metas] h dsk calls]. cbn in Hix. subst ix0.
  cbn in Hdir. rewrite lookup_insert_eq in Hdir. injection Hdir as <-.
  cbn in Hdocs, Hp, Hpl, Hixf. injection Hdocs as Hdocs. injection Hp as <-.
  apply pickle_load_grows in Hpl as [_ Hlen].
  assert (length (metadata db') = length metas) as Hmetas.
  { rewrite Hlen. clear. generalize (@nil loc).
    induction metas as [|l rest IH]; intros memo; [done|].
    cbn. destruct (list_find _ memo) as [[]|]; cbn; by rewrite IH. }
  destruct (index db') as [ix'|] eqn:Hix'; [|done]. injection Hixf as <-.
  cbn. split; [done|]. split; [done|]. split; [done|].
  unfold aligned, index_count. cbn. by rewrite Hix', Hmetas, <- Hdocs.
Qed.

Lemma save_load_keeps_index_witness :
  let s := (add_documents ["a"; "bb"] None toy_state).2 in
  let loaded := load (λ _, toy_model) "db" (save "db" s).2 in
  ∃ db', loaded.1 = Ok db' ∧
    index db' = Some (Index.mk 2 [[1; 1]; [2; 1]]%Z) ∧
    documents db' = ["a"; "bb"] ∧
    length (metadata db') = 2 ∧
    (aligned db' ↔ aligned (self s)).
Proof.
  intros s loaded.
  exists (mkDB "toy" toy_model (Some (Index.mk 2 [[1; 1]; [2; 1]]%Z))
            ["a"; "bb"] [2; 3]).
  split; [by vm_compute|].
  apply (save_load_keeps_index (λ _, toy_model) "db" s
           (Index.mk 2 [[1; 1]; [2; 1]]%Z) (save "db" s).2 _ loaded.2);
    [reflexivity|reflexivity|by vm_compute].
Defined.

(** X19.  When [load] returns a database, the folder is there with its
    model name, document list and metadata list; the database carries the
    name as a text file gives it, line endings read as line feeds and the
    white space around it stripped, the document list of the folder, the
    dicts its metadata list unpickles to, and the index of the folder, or
    none when the folder has no index file. *)
Theorem load_returns_what_it_read from_pretrained directory s db s' :
  load from_pretrained directory s = (Ok db, s') →
  ∃ dir name p,
    disk s !! directory = Some dir ∧
    model_name_txt dir = Some (Valid name) ∧
    model_name db = strip (universal_newlines name) ∧
    documents_pkl dir = Some (Valid (documents db)) ∧
    metadata_pkl dir = Some (Valid p) ∧
    pickle_load [] p (heap s) = Some (metadata db, heap s') ∧
    index_faiss dir = Valid <$> index db.
Proof. apply load_inv. Qed.

Lemma load_returns_what_it_read_witness :
  let name := " a" +:+ carriage_return +:+ "b" +:+ line_feed in
  let s := on_disk "db" (set_model_name_txt (Some (Valid name)) folder_saved) in
  let db := mkDB ("a" +:+ line_feed +:+ "b") toy_model
              (Some (Index.mk 2 [[1; 1]%Z])) ["a"] [0] in
  ∃ dir name p,
    disk s !! "db" = Some dir ∧
    model_name_txt dir = Some (Valid name) ∧
    model_name db = strip (universal_newlines name) ∧
    documents_pkl dir = Some (Valid (documents db)) ∧
    metadata_pkl dir = Some (Valid p) ∧
    pickle_load [] p (heap s) = Some (metadata db, [∅]) ∧
    index_faiss dir = Valid <$> index db.
Proof.
  intros name s db.
  apply (load_returns_what_it_read (λ _, toy_model) "db" s db
           (with_heap (λ _, [∅]) s)).
  by vm_compute.
Defined.

(** ** The database's own list as the batch *)

(** X20.  Handed its own document list, which is not empty, with no
    metadata, [add_documents] returns normally when the embedder answers
    and the index takes the array: the document list is then twice what it
    was, the index has one more vector for each text there was, and the
    metadata list has two new dicts for each of them. *)
Theorem add_documents_own_list s e :
  documents (self s) ≠ [] →
  model (self s) (documents (self s)) = Some e →
  (∀ ix, index (self s) = Some ix → shape1 e = Index.d ix) →
  ∃ s', add_documents_passed Own None s = (Ok (), s') ∧
    documents (self s') = documents (self s) ++ documents (self s) ∧
    index_vectors (self s') = index_vectors (self s) ++ rows e ∧
    metadata (self s') =
      metadata (self s) ++ seq (length (heap s)) (2 * length (documents (self s))).
Proof.
  destruct s as [[name E ix txts ms] h dsk calls]. cbn. intros Hne He Hd.
  destruct txts as [|txt txts]; [done|].
  unfold add_documents_passed, read_documents, generate_embeddings, index_add,
    fresh_dicts.
  run_monad. cbn -[Index.add stamp stamped seq replicate]. rewrite He.
  unfold Index.add.
  destruct ix as [ix|]; cbn -[stamp stamped seq replicate].
  - rewrite decide_True by (by apply Hd). cbn -[stamp stamped seq replicate].
    rewrite decide_True by (rewrite length_seq, !length_app; cbn; lia).
    rewrite stamp_run. eexists. split; [done|]. cbn -[seq].
    split; [done|]. split; [done|]. do 2 f_equal. rewrite length_app. cbn. lia.
  - rewrite decide_True by done. cbn -[stamp stamped seq replicate].
    rewrite decide_True by (rewrite length_seq, !length_app; cbn; lia).
    rewrite stamp_run. eexists. split; [done|]. cbn -[seq].
    split; [done|]. split; [done|]. do 2 f_equal. rewrite length_app. cbn. lia.
Qed.

Lemma add_documents_own_list_witness :
  let s := (add_documents ["a"; "bb"] None toy_state).2 in
  ∃ s', add_documents_passed Own None s = (Ok (), s') ∧
    documents (self s') = ["a"; "bb"; "a"; "bb"] ∧
    index_vectors (self s') = [[1; 1]; [2; 1]; [1; 1]; [2; 1]]%Z ∧
    metadata (self s') = [0; 1; 2; 3; 4; 5].
Proof.
  intros s.
  apply (add_documents_own_list s (mk_ndarray 2 [[1; 1]; [2; 1]]%Z)).
  - done.
  - reflexivity.
  - intros ix [= <-]. reflexivity.
Defined.

(** * [batch_process_documents] *)

(** ** The batches *)

Lemma ceil_bounds n b :
  0 < b →
  let m := (n + b - 1) `div` b in
  n ≤ m * b ∧ (∀ j, j < m → j * b < n) ∧ (∀ j, S j < m → S j * b ≤ n).
Proof.
  intros Hb m.
  pose proof (Nat.Div0.mul_div_le (n + b - 1) b) as Hle.
  pose proof (Nat.mul_succ_div_gt (n + b - 1) b ltac:(lia)) as Hgt.
  fold m in Hle, Hgt. repeat split; [nia|intros j Hj; nia..].
Qed.

Lemma join_chunks b m : ∀ l : list string,
  length l ≤ m * b →
  mjoin ((λ j, take b (drop (j * b) l)) <$> seq 0 m) = l.
Proof.
  induction m as [|m IH]; intros l Hl.
  { destruct l; [done|cbn in Hl; lia]. }
  cbn [seq fmap list_fmap mjoin list_join].
  change (list_fmap ?A ?B ?f ?xs) with (f <$> xs).
  rewrite <- fmap_S_seq, <- list_fmap_compose.
  rewrite (list_fmap_ext _ (λ j, take b (drop (j * b) (drop b l)))).
  2:{ intros i j _. cbn. by rewrite drop_drop. }
  rewrite IH by (rewrite length_drop; lia).
  cbn. apply take_drop.
Qed.

Lemma py_range_positive stop step :
  (0 < step)%Z →
  py_range stop step =
    Some ((λ j, j * Z.to_nat step)
            <$> seq 0 ((stop + Z.to_nat step - 1) `div` Z.to_nat step)).
Proof.
  intros Hstep. unfold py_range.
  rewrite decide_False by lia. by rewrite decide_False by lia.
Qed.

Lemma batches_positive documents batch_size :
  (0 < batch_size)%Z →
  batches documents batch_size =
    (λ j, take (Z.to_nat batch_size) (drop (j * Z.to_nat batch_size) documents))
      <$> seq 0 ((length documents + Z.to_nat batch_size - 1)
                   `div` Z.to_nat batch_size).
Proof.
  intros Hb. unfold batches. rewrite py_range_positive by done. cbn.
  by rewrite <- list_fmap_compose.
Qed.

(** X13.  For a positive batch size the batches the loop forms are the
    documents cut in order: joined they give the documents back; none is
    empty and none is longer than the batch size; all but the last have
    exactly the batch size. *)
Theorem batches_partition documents batch_size :
  (0 < batch_size)%Z →
  mjoin (batches documents batch_size) = documents ∧
  Forall (λ b, 1 ≤ length b ≤ Z.to_nat batch_size)
    (batches documents batch_size) ∧
  ∀ j b, S j < length (batches documents batch_size) →
         batches documents batch_size !! j = Some b →
         length b = Z.to_nat batch_size.
Proof.
  intros Hb. rewrite batches_positive by done.
  set (b := Z.to_nat batch_size). assert (0 < b) as Hb' by lia.
  destruct (ceil_bounds (length documents) b Hb') as (Hall & Hlt & Hfull).
  split; [by apply join_chunks|]. split.
  - apply Forall_fmap, Forall_seq. intros j [_ Hj]. cbn.
    rewrite length_take, length_drop. specialize (Hlt j Hj). lia.
  - intros j chunk Hj Hchunk. rewrite length_fmap, length_seq in Hj.
    rewrite list_lookup_fmap in Hchunk.
    destruct (seq 0 _ !! j) as [j'|] eqn:Hj'; [|done].
    apply lookup_seq in Hj' as [-> _]. injection Hchunk as <-.
    rewrite length_take, length_drop. specialize (Hfull j Hj). cbn in *. lia.
Qed.

Lemma batches_partition_witness :
  mjoin (batches ["a"; "bb"; "ccc"; "dddd"; "eeeee"] 2)
    = ["a"; "bb"; "ccc"; "dddd"; "eeeee"] ∧
  Forall (λ b, 1 ≤ length b ≤ 2) (batches ["a"; "bb"; "ccc"; "dddd"; "eeeee"] 2) ∧
  ∀ j b, S j < length (batches ["a"; "bb"; "ccc"; "dddd"; "eeeee"] 2) →
         batches ["a"; "bb"; "ccc"; "dddd"; "eeeee"] 2 !! j = Some b →
         length b = 2.
Proof.
  apply (batches_partition ["a"; "bb"; "ccc"; "dddd"; "eeeee"] 2). lia.
Defined.

(** ** The loop *)

(** The loop over any list of positions: the embedder is called on the
    batches in order and a line is printed before each call; the loop
    stops at the first batch the model refuses. *)
Lemma embed_batches_run documents batch_size starts : ∀ s lines r s',
  embed_batches documents batch_size starts s = (lines, r, s') →
  s' = with_embed_calls
         (λ c, c ++ take (length lines) (batch_at documents batch_size <$> starts)) s ∧
  lines = take (length lines) (progress documents batch_size <$> starts) ∧
  match r with
  | Ok all_embeddings =>
      length lines = length starts ∧
      Forall2 (λ i e, model (self s) (batch_at documents batch_size i) = Some e)
        starts all_embeddings
  | Raise e =>
      e = EmbeddingError ∧
      ∃ j i, length lines = S j ∧ starts !! j = Some i ∧
             model (self s) (batch_at documents batch_size i) = None ∧
             Forall (λ i', is_Some (model (self s) (batch_at documents batch_size i')))
               (take j starts)
  end.
Proof.
  induction starts as [|i rest IH]; intros s lines r s'.
  { intros [= <- <- <-]. destruct s. unfold with_embed_calls. cbn.
    by rewrite app_nil_r. }
  cbn [embed_batches]. unfold generate_embeddings.
  destruct (model (self s) (batch_at documents batch_size i)) as [e|] eqn:He.
  - destruct (embed_batches documents batch_size rest _) as [[lines' r'] s'']
      eqn:Hrest.
    apply IH in Hrest as (-> & Hlines & Hr). intros [= <- <- <-].
    split; [|split].
    + destruct s. unfold with_embed_calls. cbn. by rewrite <- app_assoc.
    + cbn. by rewrite <- Hlines.
    + assert (self (with_embed_calls
                (λ c, c ++ [batch_at documents batch_size i]) s) = self s)
        as Hself by by destruct s.
      rewrite Hself in Hr. destruct r' as [all_embeddings|e'].
      * destruct Hr as [Hlen Hall]. split; [by cbn; rewrite Hlen|].
        by constructor.
      * destruct Hr as (-> & j & i' & Hlen & Hi' & Hnone & Hsome).
        split; [done|]. exists (S j), i'. cbn. rewrite Hlen.
        repeat split; try done. constructor; [by rewrite He|done].
  - intros [= <- <- <-]. split; [by destruct s|]. split; [done|].
    split; [done|]. exists 0, i. by repeat split.
Qed.

Section BatchProcessProofs.

Variable from_pretrained : string → embedder.

(** The model of the database the function builds. *)
Let E : embedder := from_pretrained "distilbert-base-uncased".

(** X14.  Whatever happens, [batch_process_documents] leaves the database
    at hand, the dicts and the disk as they were; the embedder has been
    called on the first batches, in order, one call for each line
    printed. *)
Theorem batch_process_documents_frame documents batch_size s :
  let '(lines, r, s') :=
    batch_process_documents from_pretrained documents batch_size s in
  self s' = self s ∧ heap s' = heap s ∧ disk s' = disk s ∧
  embed_calls s' =
    embed_calls s ++ take (length lines) (batches documents batch_size).
Proof.
  unfold batch_process_documents, batches.
  destruct (py_range _ _) as [starts|]; cbn.
  2:{ by rewrite ?take_nil, ?app_nil_r. }
  destruct (embed_batches _ _ _ _) as [[lines r] s'] eqn:Hrun.
  apply embed_batches_run in Hrun as (-> & _ & _).
  destruct s. by destruct r.
Qed.

(** X15.  On an empty list of documents, or with a batch size that is not
    positive, the function raises [ValueError]: nothing is printed, the
    embedder is not called and the state is as it was. *)
Theorem batch_process_documents_nothing_to_do documents batch_size s :
  documents = [] ∨ (batch_size ≤ 0)%Z →
  batch_process_documents from_pretrained documents batch_size s
    = ([], inl ValueError, s).
Proof.
  intros Hedge. unfold batch_process_documents, py_range.
  destruct (decide (batch_size = 0)%Z); [done|].
  destruct (decide (batch_size < 0)%Z); [by destruct s|].
  destruct Hedge as [->|]; [|lia]. cbn.
  rewrite (Nat.div_small (Z.to_nat batch_size - 1)) by lia.
  by destruct s.
Qed.

(** What a call that goes through all the batches has done. *)
Lemma batch_process_documents_run documents batch_size s lines r s' :
  (0 < batch_size)%Z →
  batch_process_documents from_pretrained documents batch_size s
    = (lines, r, s') →
  lines = take (length lines)
            (progress documents batch_size
               <$> default [] (py_range (length documents) batch_size)) ∧
  match r with
  | inl (Raised e) =>
      e = EmbeddingError ∧
      ∃ j b, length lines = S j ∧
             batches documents batch_size !! j = Some b ∧ E b = None ∧
             Forall (λ b', is_Some (E b')) (take j (batches documents batch_size))
  | r =>
      length lines = length (batches documents batch_size) ∧
      ∃ all_embeddings,
        Forall2 (λ b e, E b = Some e) (batches documents batch_size)
          all_embeddings ∧
        r = match vstack all_embeddings with
            | Some a => inr a
            | None => inl ValueError
            end
  end.
Proof.
  intros Hb. unfold batch_process_documents, batches.
  rewrite py_range_positive by done. cbn [default from_option id].
  set (starts := _ <$> seq 0 _).
  destruct (embed_batches _ _ _ _) as [[lines0 r0] s0] eqn:Hrun.
  apply embed_batches_run in Hrun as (_ & Hlines & Hr).
  change (self (with_self _ s)) with (init from_pretrained "distilbert-base-uncased")
    in Hr.
  change (model (init from_pretrained "distilbert-base-uncased")) with E in Hr.
  destruct r0 as [all_embeddings|e].
  - destruct Hr as [Hlen Hall]. intros [= <- <- <-]. split; [done|].
    assert (length lines0 = length (batch_at documents batch_size <$> starts)
            ∧ ∃ all, Forall2 (λ b e, E b = Some e)
                       (batch_at documents batch_size <$> starts) all ∧
                     match vstack all_embeddings with
                     | Some a => inr a
                     | None => inl ValueError
                     end = match vstack all with
                           | Some a => inr a
                           | None => inl ValueError
                           end) as Hgoal.
    { split; [by rewrite length_fmap|]. exists all_embeddings.
      split; [by apply Forall2_fmap_l|done]. }
    by destruct (vstack all_embeddings).
  - destruct Hr as (-> & j & i & Hlen & Hi & Hnone & Hsome).
    intros [= <- <- <-]. split; [done|]. split; [done|].
    exists j, (batch_at documents batch_size i).
    split; [done|]. split; [by rewrite list_lookup_fmap, Hi|]. split; [done|].
    rewrite <- fmap_take. by apply Forall_fmap.
Qed.

Lemma vstack_Some all_embeddings a :
  vstack all_embeddings = Some a →
  all_embeddings ≠ [] ∧
  rows a = mjoin (rows <$> all_embeddings) ∧
  Forall (λ e, shape1 e = shape1 a) all_embeddings.
Proof.
  destruct all_embeddings as [|e rest]; [done|]. cbn.
  destruct (forallb _ rest) eqn:Hsame; [|done]. intros [= <-].
  split; [done|]. split; [done|]. cbn. constructor; [done|].
  apply Is_true_true_2, forallb_True in Hsame.
  eapply Forall_impl; [done|]. cbn. intros e' He'.
  by apply Nat.eqb_eq, Is_true_true_1.
Qed.

Lemma progress_at documents b j :
  0 < b → j * b < length documents →
  progress documents (Z.of_nat b) (j * b) =
    ((Z.of_nat j + 1)%Z, Z.of_nat ((length documents + b - 1) `div` b)).
Proof.
  intros Hb Hj. unfold progress. f_equal.
  - by rewrite Nat2Z.inj_mul, Z.div_mul by lia.
  - rewrite Nat2Z.inj_div.
    replace (Z.of_nat (length documents + b - 1))
      with (Z.of_nat (length documents) - 1 + 1 * Z.of_nat b)%Z by lia.
    by rewrite Z.div_add by lia.
Qed.

(** X16.  When the function returns an array, for a positive batch size:
    one line was printed for each batch, the line of the batch at place
    [j] reading [j + 1] out of the number of batches; every batch was
    embedded; the rows of the array are the rows of the embeddings of the
    batches, in order, all of one width; and if the embedder gives one row
    for each text, the array has one row for each document. *)
Theorem batch_process_documents_returns documents batch_size s lines a s' :
  (0 < batch_size)%Z →
  batch_process_documents from_pretrained documents batch_size s
    = (lines, inr a, s') →
  let m := length (batches documents batch_size) in
  lines = (λ j, ((Z.of_nat j + 1)%Z, Z.of_nat m)) <$> seq 0 m ∧
  ∃ all_embeddings,
    Forall2 (λ b e, E b = Some e) (batches documents batch_size)
      all_embeddings ∧
    rows a = mjoin (rows <$> all_embeddings) ∧
    Forall (λ e, shape1 e = shape1 a) all_embeddings ∧
    ((∀ b e, E b = Some e → length (rows e) = length b) →
     length (rows a) = length documents).
Proof.
  intros Hb Hrun m.
  destruct (batch_process_documents_run _ _ _ _ _ _ Hb Hrun)
    as (Hlines & Hlen & all_embeddings & Hall & Hr).
  destruct (vstack all_embeddings) as [a'|] eqn:Hstack; [|done].
  injection Hr as ->.
  destruct (vstack_Some _ _ Hstack) as (Hne & Hrows & Hwidth).
  split.
  - rewrite Hlines, Hlen, take_ge
      by (unfold batches; by rewrite !length_fmap).
    unfold m. rewrite batches_positive, py_range_positive by done.
    cbn [default from_option id]. rewrite length_fmap, length_seq.
    rewrite <- list_fmap_compose. apply list_fmap_ext.
    intros i j Hj%lookup_seq. destruct Hj as [-> Hj]. cbn.
    rewrite <- (Z2Nat.id batch_size) at 1 by lia.
    apply progress_at; [lia|].
    by apply (ceil_bounds (length documents) (Z.to_nat batch_size)); [lia|].
  - exists all_embeddings. repeat split; try done. intros Hone.
    rewrite Hrows, length_join.
    destruct (batches_partition documents batch_size Hb) as [Hjoin _].
    rewrite <- Hjoin. rewrite length_join. f_equal.
    clear -Hall Hone. induction Hall as [|b e bs es He _ IH]; [done|].
    cbn. by rewrite IH, (Hone b e He).
Qed.

Lemma join_fmap {A B} (f : A → B) (ls : list (list A)) :
  mjoin (fmap f <$> ls) = f <$> mjoin ls.
Proof.
  induction ls as [|l ls IH]; [done|]. csimpl. by rewrite fmap_app, IH.
Qed.

(** X17.  With a model that embeds each text on its own, always in [d]
    columns, batch processing gives, for a positive batch size and a list
    of documents that is not empty, the array the model gives for all the
    documents at once. *)
Theorem batch_process_documents_rowwise documents batch_size s d f :
  (∀ batch, E batch = Some (mk_ndarray d (f <$> batch))) →
  (0 < batch_size)%Z →
  documents ≠ [] →
  (batch_process_documents from_pretrained documents batch_size s).1.2
    = inr (mk_ndarray d (f <$> documents)).
Proof.
  intros Hrow Hb Hdocs.
  destruct (batch_process_documents _ _ _ _) as [[lines r] s'] eqn:Hrun.
  destruct (batch_process_documents_run _ _ _ _ _ _ Hb Hrun) as [_ Hr].
  destruct (batches_partition documents batch_size Hb) as [Hjoin _].
  cbn. destruct r as [[|e]|a].
  - destruct Hr as (_ & all_embeddings & Hall & Hr).
    exfalso. revert Hr Hall Hjoin.
    destruct (batches documents batch_size) as [|b bs]; [by intros _ _ <-|].
    intros Hr Hall _. apply Forall2_cons_inv_l in Hall as (e & es & He & Hes & ->).
    cbn in Hr. rewrite Hrow in He. injection He as <-. cbn in Hr.
    assert (forallb (λ b0, shape1 b0 =? d) es = true) as Hsame.
    { clear -Hes Hrow. induction Hes as [|b' e' bs es He' _ IH]; [done|].
      cbn. rewrite Hrow in He'. injection He' as <-. cbn.
      by rewrite Nat.eqb_refl. }
    by rewrite Hsame in Hr.
  - destruct Hr as (_ & j & b & _ & _ & Hnone & _). by rewrite Hrow in Hnone.
  - destruct Hr as (_ & all_embeddings & Hall & Hr).
    destruct (vstack all_embeddings) as [a'|] eqn:Hstack; [|done].
    injection Hr as ->.
    destruct (vstack_Some _ _ Hstack) as (Hne & Hrows & Hwidth).
    assert (all_embeddings
            = (λ b, mk_ndarray d (f <$> b)) <$> batches documents batch_size)
      as ->.
    { clear -Hall Hrow. induction Hall as [|b e bs es He _ IH]; [done|].
      cbn. rewrite Hrow in He. injection He as <-. by rewrite IH. }
    f_equal. destruct a' as [w rs]. cbn in *. f_equal.
    + destruct (batches documents batch_size) as [|b bs]; [done|].
      by apply Forall_cons in Hwidth as [Hw _].
    + rewrite Hrows, <- list_fmap_compose.
      change (rows ∘ _) with (fmap (M := list) f).
      by rewrite join_fmap, Hjoin.
Qed.

(** X18.  For a positive batch size, if the model refuses a batch and
    answers all the batches before it, the function fails with what
    the embedder raised, after the line of that batch: the batches after
    it are neither announced nor embedded. *)
Theorem batch_process_documents_stops documents batch_size s j b lines r s' :
  (0 < batch_size)%Z →
  batches documents batch_size !! j = Some b →
  E b = None →
  Forall (λ b', is_Some (E b')) (take j (batches documents batch_size)) →
  batch_process_documents from_pretrained documents batch_size s
    = (lines, r, s') →
  r = inl (Raised EmbeddingError) ∧ length lines = S j.
Proof.
  intros Hb Hj Hnone Hsome Hrun.
  destruct (batch_process_documents_run _ _ _ _ _ _ Hb Hrun) as [_ Hr].
  assert (∀ all_embeddings,
    ¬ Forall2 (λ b e, E b = Some e) (batches documents batch_size)
        all_embeddings) as Hnot.
  { intros all_embeddings Hall.
    destruct (Forall2_lookup_l _ _ _ _ _ Hall Hj) as (e & _ & He).
    by rewrite Hnone in He. }
  destruct r as [[|e]|a].
  - destruct Hr as (_ & all_embeddings & Hall & _). by destruct (Hnot _ Hall).
  - destruct Hr as (-> & j' & b' & Hlen & Hj' & Hnone' & Hsome').
    split; [done|]. rewrite Hlen. f_equal.
    destruct (Nat.lt_trichotomy j' j) as [Hlt|[->|Hgt]]; [|done|].
    + rewrite Forall_forall in Hsome.
      destruct (Hsome b') as [e He]; [|by rewrite Hnone' in He].
      apply elem_of_take. eauto.
    + rewrite Forall_forall in Hsome'.
      destruct (Hsome' b) as [e He]; [|by rewrite Hnone in He].
      apply elem_of_take. eauto.
  - destruct Hr as (_ & all_embeddings & Hall & _). by destruct (Hnot _ Hall).
Qed.

End BatchProcessProofs.

Lemma batch_process_documents_nothing_to_do_witness :
  batch_process_documents (λ _, toy_model) [] 8 toy_state
    = ([], inl ValueError, toy_state) ∧
  batch_process_documents (λ _, toy_model) ["a"; "bb"] (-1) toy_state
    = ([], inl ValueError, toy_state).
Proof.
  split.
  - apply (batch_process_documents_nothing_to_do (λ _, toy_model) [] 8).
    by left.
  - apply (batch_process_documents_nothing_to_do (λ _, toy_model)
             ["a"; "bb"] (-1)).
    right. lia.
Defined.

Lemma batch_process_documents_returns_witness :
  let documents := ["a"; "bb"; "ccc"; "dddd"; "eeeee"] in
  let a := mk_ndarray 2 [[1; 1]; [2; 1]; [3; 1]; [4; 1]; [5; 1]]%Z in
  let m := length (batches documents 2) in
  [(1, 3); (2, 3); (3, 3)]%Z
    = (λ j, ((Z.of_nat j + 1)%Z, Z.of_nat m)) <$> seq 0 m ∧
  ∃ all_embeddings,
    Forall2 (λ b e, toy_model b = Some e) (batches documents 2) all_embeddings ∧
    rows a = mjoin (rows <$> all_embeddings) ∧
    Forall (λ e, shape1 e = shape1 a) all_embeddings ∧
    ((∀ b e, toy_model b = Some e → length (rows e) = length b) →
     length (rows a) = length documents).
Proof.
  intros documents a.
  apply (batch_process_documents_returns (λ _, toy_model) documents 2
           toy_state [(1, 3); (2, 3); (3, 3)]%Z a
           (batch_process_documents (λ _, toy_model) documents 2 toy_state).2).
  - lia.
  - reflexivity.
Defined.

Lemma batch_process_documents_rowwise_witness :
  (batch_process_documents
     (λ _ texts, Some (mk_ndarray 1 ((λ t, [Z.of_nat (String.length t)]) <$> texts)))
     ["a"; "bb"; "ccc"] 2 toy_state).1.2
  = inr (mk_ndarray 1 [[1]; [2]; [3]]%Z).
Proof.
  apply (batch_process_documents_rowwise
           (λ _ texts, Some (mk_ndarray 1 ((λ t, [Z.of_nat (String.length t)]) <$> texts)))
           ["a"; "bb"; "ccc"] 2 toy_state 1
           (λ t, [Z.of_nat (String.length t)])).
  - reflexivity.
  - lia.
  - discriminate.
Defined.

Lemma batch_process_documents_stops_witness :
  let refusing : embedder :=
    λ texts, match texts with "bad" :: _ => None | _ => toy_model texts end in
  let run := batch_process_documents (λ _, refusing)
               ["a"; "bb"; "bad"; "d"; "e"] 2 toy_state in
  run.1.2 = inl (Raised EmbeddingError) ∧ length run.1.1 = 2.
Proof.
  intros refusing run.
  apply (batch_process_documents_stops (λ _, refusing)
           ["a"; "bb"; "bad"; "d"; "e"] 2 toy_state 1 ["bad"; "d"]
           run.1.1 run.1.2 run.2).
  - lia.
  - reflexivity.
  - reflexivity.
  - repeat constructor. by eexists.
  - reflexivity.
Defined.
